(** * Vine: the balanced-ternary assembler and its memory

    A shallow embedding of [src/core/asm/assemble.ts] and
    [src/core/vm/Memory.ts].

    Strings are sequences of code units below 256 ([ascii]); within that
    range no case mapping of a non-ASCII unit produces a letter of a
    mnemonic or of a register name, so the ASCII case mapping used here
    decides every comparison the assembler makes the same way.  JavaScript
    numbers are integers ([Z]); objects that the code mutates live in an
    explicit heap. *)

From Stdlib Require Import ZArith Ascii String.
From stdpp Require Import base numbers option list gmap strings.

Local Open Scope string_scope.
Local Open Scope list_scope.
Local Open Scope Z_scope.

(** ** Exceptions *)

Inductive error : Type :=
| Error (msg : string)            (* [throw new Error(msg)] *)
| TypeError                       (* a method called on [undefined] *)
| FormatError                     (* malformed sign-string literal *)
| RangeError                      (* integer outside the word range *)
| EncodeError                     (* selector outside its field *)
| UndeclaredLabelError (name : string).

Inductive result (A : Type) : Type :=
| Ok (a : A)
| Err (e : error).
Arguments Ok {A} a.
Arguments Err {A} e.

Definition rbind {A B} (r : result A) (k : A -> result B) : result B :=
  match r with
  | Ok a => k a
  | Err e => Err e
  end.

Definition rmap {A B} (f : A -> B) (r : result A) : result B :=
  rbind r (fun a => Ok (f a)).

Notation "x <- r ;; k" := (rbind r (fun x => k))
  (at level 20, r at level 99, k at level 200, only parsing).

(** ** The numeral codec and the ALU ([vm/ALU.ts], not part of the sources) *)

Module ALU.

Inductive Trit : Type := Minus | Nought | Plus.

(** A tryte is a JavaScript array of trits, most significant first. *)
Definition Tryte : Type := list Trit.

(** The constant is quoted by the comment that heads [Memory.ts]. *)
Definition TRYTE_NUM_VALUES : Z := 19683.

Definition tritValue (t : Trit) : Z :=
  match t with
  | Minus => -1
  | Nought => 0
  | Plus => 1
  end.

(** Modelled from the spec: [wordToInt(w)], absent with [ALU.ts]; its
    value is the sum of trit[i] * 3^(8-i) for i = 0..8. *)
Definition wordToInt (w : Tryte) : Z :=
  foldr Z.add 0 (imap (fun i d => tritValue d * 3 ^ (8 - Z.of_nat i)) w).

(** [Memory.ts] hands [t2n] a [Tryte | number]. *)
Inductive TryteOrNumber : Type :=
| word (t : Tryte)
| number (n : Z).

(** Modelled from the spec: [t2n], absent with [ALU.ts]; a word is
    converted by [wordToInt], a pre-converted integer is taken as it is. *)
Definition t2n (v : TryteOrNumber) : Z :=
  match v with
  | word t => wordToInt t
  | number n => n
  end.

Definition tritOf (r : Z) : Trit :=
  if r <? 0 then Minus else if r =? 0 then Nought else Plus.

(** Modelled from the spec: [intToDigits], absent with [ALU.ts]; the
    [k] low balanced-ternary digits of [n], most significant first. *)
Fixpoint intToDigits (k : nat) (n : Z) (acc : list Trit) : list Trit :=
  match k with
  | O => acc
  | S k' =>
      let r := (n + 1) mod 3 - 1 in
      intToDigits k' ((n - r) / 3) (tritOf r :: acc)
  end.

(** Modelled from the spec: [intToWord(n)], absent with [ALU.ts]; the
    inverse of [wordToInt], a [RangeError] outside [-9841, 9841]. *)
Definition n2t (n : Z) : result Tryte :=
  if (-9841 <=? n) && (n <=? 9841) then Ok (intToDigits 9 n [])
  else Err RangeError.

Definition charToTrit (c : ascii) : option Trit :=
  if Ascii.eqb c "-" then Some Minus
  else if Ascii.eqb c "o" then Some Nought
  else if Ascii.eqb c "+" then Some Plus
  else None.

Fixpoint stringToTrits (s : string) : option (list Trit) :=
  match s with
  | EmptyString => Some []
  | String c rest =>
      match charToTrit c, stringToTrits rest with
      | Some d, Some ds => Some (d :: ds)
      | _, _ => None
      end
  end.

(** Modelled from the spec: [stringToWord(s)], absent with [ALU.ts]; a
    [FormatError] unless [s] has 9 characters, all of them among
    [-], [o] and [+]. *)
Definition s2t (s : string) : result Tryte :=
  if Nat.eqb (String.length s) 9 then
    match stringToTrits s with
    | Some w => Ok w
    | None => Err FormatError
    end
  else Err FormatError.

Definition tritToChar (t : Trit) : ascii :=
  match t with
  | Minus => "-"
  | Nought => "o"
  | Plus => "+"
  end%char.

(** Modelled from the spec: [wordToString(w)], absent with [ALU.ts]. *)
Definition t2s (w : Tryte) : string :=
  foldr (fun d s => String (tritToChar d) s) EmptyString w.

(** Modelled from the spec: [clone], absent with [ALU.ts]; a copy of the
    array.  Values of the embedding are immutable, so the copy is the
    value itself. *)
Definition clone (w : Tryte) : Tryte := w.

Definition wrapWord (n : Z) : Z := (n + 9841) mod TRYTE_NUM_VALUES - 9841.

(** Modelled from the spec: [ALU.add], absent with [ALU.ts]; signed
    balanced-ternary addition into the accumulator, wrapping around at
    the +-9841 boundary.  The new contents of the accumulator are
    returned. *)
Definition add (accumulator operand : Tryte) : Tryte :=
  intToDigits 9 (wrapWord (wordToInt accumulator + wordToInt operand)) [].

Definition wellFormed (w : Tryte) : Prop := length w = 9%nat.

End ALU.
Import ALU.

(** ** [vm/Memory.ts] *)

Module Memory.

(** [block: Int32Array] *)
Record Memory : Type := { block : list Z }.

(** A value written to an [Int32Array] is reduced to 32 signed bits. *)
Definition ToInt32 (n : Z) : Z := (n + 2 ^ 31) mod 2 ^ 32 - 2 ^ 31.

(** [constructor(size = TRYTE_NUM_VALUES)]; [None] is the omitted
    argument. *)
Definition new (size : option Z) : Memory :=
  {| block := replicate (Z.to_nat TRYTE_NUM_VALUES) 0 |}.

(** [this.block[i]]: an index outside the array reads [undefined]
    ([None]). *)
Definition get (b : list Z) (i : Z) : option Z :=
  if 0 <=? i then b !! Z.to_nat i else None.

(** [this.block[i] = v]: an index outside the array writes nothing. *)
Definition set (b : list Z) (i v : Z) : list Z :=
  if 0 <=? i then <[Z.to_nat i := ToInt32 v]> b else b.

Section Load.

(** What [n2t] makes of [undefined] is decided by [ALU.ts] alone. *)
Variable n2t_undefined : result Tryte.

Definition load (m : Memory) (addr : TryteOrNumber) : result Tryte :=
  match get (block m) (t2n addr + 9841) with
  | Some n => n2t n
  | None => n2t_undefined
  end.

End Load.

Definition store (m : Memory) (value addr : TryteOrNumber) : Memory :=
  let addrNumber := t2n addr in
  let valueNumber := t2n value in
  {| block := set (block m) (addrNumber + 9841) valueNumber |}.

(** The backing array has one cell per tryte value. *)
Definition fullSize (m : Memory) : Prop :=
  Z.of_nat (length (block m)) = TRYTE_NUM_VALUES.

Definition inRange (n : Z) : Prop := -9841 <= n <= 9841.

(** An address or a value that denotes a word. *)
Definition representable (v : TryteOrNumber) : Prop :=
  match v with
  | word t => wellFormed t
  | number n => inRange n
  end.

End Memory.

(** ** The string operations [assemble.ts] uses *)

Module JSString.

Definition newline : ascii := "010"%char.
Definition carriageReturn : ascii := "013"%char.

(** White space as [trim] sees it, among the code units below 256. *)
Definition isWhiteSpace (c : ascii) : bool :=
  existsb (Ascii.eqb c)
    ["009"; "010"; "011"; "012"; "013"; "032"; "160"]%char.

Fixpoint trimStart (s : string) : string :=
  match s with
  | EmptyString => EmptyString
  | String c rest => if isWhiteSpace c then trimStart rest else s
  end.

Fixpoint trimEnd (s : string) : string :=
  match s with
  | EmptyString => EmptyString
  | String c rest =>
      match trimEnd rest with
      | EmptyString => if isWhiteSpace c then EmptyString else String c EmptyString
      | kept => String c kept
      end
  end.

(** [s.trim()] *)
Definition trim (s : string) : string := trimEnd (trimStart s).

Definition upperChar (c : ascii) : ascii :=
  let n := nat_of_ascii c in
  if (Nat.leb 97 n && Nat.leb n 122)%bool then ascii_of_nat (n - 32) else c.

Definition lowerChar (c : ascii) : ascii :=
  let n := nat_of_ascii c in
  if (Nat.leb 65 n && Nat.leb n 90)%bool then ascii_of_nat (n + 32) else c.

Fixpoint mapChars (f : ascii -> ascii) (s : string) : string :=
  match s with
  | EmptyString => EmptyString
  | String c rest => String (f c) (mapChars f rest)
  end.

(** [s.toUpperCase()], [s.toLowerCase()] *)
Definition toUpperCase : string -> string := mapChars upperChar.
Definition toLowerCase : string -> string := mapChars lowerChar.

(** [s.substr(1)] *)
Definition substr1 (s : string) : string :=
  match s with
  | EmptyString => EmptyString
  | String _ rest => rest
  end.

(** [s[0]]; [None] is [undefined]. *)
Definition first (s : string) : option ascii :=
  match s with
  | EmptyString => None
  | String c _ => Some c
  end.

(** [s.split('\n')]: never empty, the empty string splits into [['']]. *)
Fixpoint splitLines (s : string) : list string :=
  match s with
  | EmptyString => [EmptyString]
  | String c rest =>
      if Ascii.eqb c newline then EmptyString :: splitLines rest
      else match splitLines rest with
           | [] => [String c EmptyString]
           | head :: tail => String c head :: tail
           end
  end.

(** The regular expression's [.] matches every unit but a line
    terminator. *)
Definition isLineTerminator (c : ascii) : bool :=
  Ascii.eqb c newline || Ascii.eqb c carriageReturn.

Fixpoint hasLineTerminator (s : string) : bool :=
  match s with
  | EmptyString => false
  | String c rest => isLineTerminator c || hasLineTerminator rest
  end.

(** [line.replace(/;.*$/, '')]: the match starts at the first [;] from
    which no line terminator stands before the end of the string, and
    runs to that end. *)
Fixpoint removeComment (line : string) : string :=
  match line with
  | EmptyString => EmptyString
  | String c rest =>
      if Ascii.eqb c ";" && negb (hasLineTerminator rest) then EmptyString
      else String c (removeComment rest)
  end.

End JSString.
Import JSString.

(** ** [vm/Instruction.ts] (not part of the sources) *)

Module Instruction.

(** The three members [assemble.ts] names. *)
Inductive AddressingMode : Type :=
| REGISTER_REGISTER
| SHORT_IMMEDIATE
| WORD_IMMEDIATE.

(** The second word of an [InstructionLabeled]: a tryte, or the name of a
    label still to be resolved. *)
Inductive ZOperand : Type :=
| ZWord (w : Tryte)
| ZLabel (name : string).

Record InstructionLabeled : Type := {
  opcode : Tryte;
  addressingMode : AddressingMode;
  x : Tryte;
  y : Tryte;
  z : option ZOperand;
}.

(** A register selector, or a short immediate, fits its field when its
    magnitude is at most 4. *)
Definition selectorInRange (t : Tryte) : bool :=
  (-4 <=? wordToInt t) && (wordToInt t <=? 4).

Section Encode.

(** How the first word packs opcode, addressing mode and selectors into
    its sub-fields is fixed by [Instruction.ts] alone. *)
Variable packFirstWord : Tryte -> AddressingMode -> Tryte -> Tryte -> Tryte.

(** Modelled from the spec: [assembleInstruction], the spec's [encode],
    absent with [Instruction.ts]; it returns the first word, and under
    [WORD_IMMEDIATE] a second word with the full value, a label being
    resolved against the table; it fails with [EncodeError] on an
    out-of-range selector and with [UndeclaredLabelError] on a label
    never bound. *)
Definition assembleInstruction (instruction : InstructionLabeled)
    (labels : gmap string Tryte) : result (Tryte * option Tryte) :=
  if selectorInRange (x instruction) && selectorInRange (y instruction) then
    let data0 := packFirstWord (opcode instruction) (addressingMode instruction)
                               (x instruction) (y instruction) in
    match addressingMode instruction with
    | WORD_IMMEDIATE =>
        match z instruction with
        | Some (ZWord w) => Ok (data0, Some w)
        | Some (ZLabel name) =>
            match labels !! name with
            | Some address => Ok (data0, Some address)
            | None => Err (UndeclaredLabelError name)
            end
        | None => Err EncodeError
        end
    | _ => Ok (data0, None)
    end
  else Err EncodeError.

End Encode.

End Instruction.
Import Instruction.

(** ** [asm/assemble.ts]: the parser *)

Module Parser.

(** [expect(maybe, error)] with a string for [error]. *)
Definition expect {T} (maybe : option T) (error : string) : result T :=
  match maybe with
  | None => Err (Error error)
  | Some value => Ok value
  end.

(** [operands.shift()]: the removed head ([None] is [undefined]) and
    what stays in the array. *)
Definition shift (operands : list string) : option string * list string :=
  match operands with
  | [] => (None, [])
  | operand :: rest => (Some operand, rest)
  end.

(** [!operand]: the operand is [undefined] or the empty string. *)
Definition missing (operand : option string) : bool :=
  match operand with
  | None => true
  | Some EmptyString => true
  | Some _ => false
  end.

Fixpoint parseInstructionPartsLoop (line : string) (operands : list string)
    (buffer : string) : list string * string :=
  match line with
  | EmptyString => (operands, buffer)
  | String char rest =>
      if Nat.eqb (length operands) 0 then
        if Ascii.eqb char " " then
          parseInstructionPartsLoop rest (operands ++ [buffer]) EmptyString
        else
          parseInstructionPartsLoop rest operands (buffer +:+ String char EmptyString)
      else
        if Ascii.eqb char "," then
          parseInstructionPartsLoop rest (operands ++ [buffer]) EmptyString
        else
          parseInstructionPartsLoop rest operands (buffer +:+ String char EmptyString)
  end.

Definition parseInstructionParts (line : string) : list string :=
  let '(operands, buffer) := parseInstructionPartsLoop line [] EmptyString in
  if Nat.ltb 0 (String.length buffer) then operands ++ [buffer] else operands.

Definition isShort (value : Tryte) : bool :=
  let n := t2n (word value) in
  (n >? 4) && (n <? -4).

Definition parseRegisterOperand (operand : option string)
    : result (option Tryte) :=
  if missing operand then Ok None
  else
    let trimmed := toLowerCase (trim (default EmptyString operand)) in
    if String.eqb trimmed "r0" then rmap Some (n2t (-4))
    else if String.eqb trimmed "r1" then rmap Some (n2t (-3))
    else if String.eqb trimmed "r2" then rmap Some (n2t (-2))
    else if String.eqb trimmed "r3" then rmap Some (n2t (-1))
    else if String.eqb trimmed "r4" then rmap Some (n2t 0)
    else if String.eqb trimmed "r5" then rmap Some (n2t 1)
    else if String.eqb trimmed "r6" then rmap Some (n2t 2)
    else if String.eqb trimmed "ra" then rmap Some (n2t 3)
    else if String.eqb trimmed "sp" then rmap Some (n2t 4)
    else Ok None.

(** The [catch] turns every failure of [s2t] into [null]. *)
Definition parseImmediateOperand (operand : option string) : option Tryte :=
  if missing operand then None
  else
    let trimmed := trim (default EmptyString operand) in
    match s2t trimmed with
    | Ok w => Some w
    | Err _ => None
    end.

Definition parseAddressOperand (operand : option string) : option ZOperand :=
  if missing operand then None
  else
    let trimmed := trim (default EmptyString operand) in
    if bool_decide (first trimmed = Some "."%char) then
      Some (ZLabel (substr1 trimmed))
    else
      match s2t trimmed with
      | Ok w => Some (ZWord w)
      | Err _ => None
      end.

(** [if (asAddress)], [if (instruction.z)]: a tryte is an array and
    always passes, a label name passes unless it is the empty string. *)
Definition truthy (asAddress : option ZOperand) : bool :=
  match asAddress with
  | None => false
  | Some (ZLabel EmptyString) => false
  | Some _ => true
  end.

(** [partial: { opcode: Tryte; x: Tryte }] *)
Record Partial : Type := { partialOpcode : Tryte; partialX : Tryte }.

Definition unionParseYZ (partial : Partial) (operand : option string)
    (allowLabel : bool) : result (option InstructionLabeled) :=
  asRegister <- parseRegisterOperand operand ;;
  match asRegister with
  | Some register =>
      Ok (Some {| opcode := partialOpcode partial;
                  x := partialX partial;
                  addressingMode := REGISTER_REGISTER;
                  y := register;
                  z := None |})
  | None =>
      match parseImmediateOperand operand with
      | Some asImmediate =>
          if isShort asImmediate then
            Ok (Some {| opcode := partialOpcode partial;
                        x := partialX partial;
                        addressingMode := SHORT_IMMEDIATE;
                        y := asImmediate;
                        z := None |})
          else
            zero <- n2t 0 ;;
            Ok (Some {| opcode := partialOpcode partial;
                        x := partialX partial;
                        addressingMode := WORD_IMMEDIATE;
                        y := zero;
                        z := Some (ZWord asImmediate) |})
      | None =>
          if allowLabel then
            let asAddress := parseAddressOperand operand in
            if truthy asAddress then
              zero <- n2t 0 ;;
              Ok (Some {| opcode := partialOpcode partial;
                          x := partialX partial;
                          addressingMode := WORD_IMMEDIATE;
                          y := zero;
                          z := asAddress |})
            else Ok None
          else Ok None
      end
  end.

(** The shape shared by the cases [MOV], [ADD], [MUL], [DIV], [STA] and
    [LDA]: the opcode, a register taken from the operands, then a
    register or an immediate taken from the operands. *)
Definition registerThenYZ (opcodeNumber : Z) (error1 error2 : string)
    (operands : list string) : result (InstructionLabeled * list string) :=
  opcode <- n2t opcodeNumber ;;
  let '(operand1, operands) := shift operands in
  register <- parseRegisterOperand operand1 ;;
  x <- expect register error1 ;;
  let '(operand2, operands) := shift operands in
  parsed <- unionParseYZ {| partialOpcode := opcode; partialX := x |} operand2 false ;;
  instruction <- expect parsed error2 ;;
  Ok (instruction, operands).

(** [parseInstruction] mutates [operands]; the operands left in the
    array are returned with the instruction. *)
Definition parseInstruction (mnemonic : string) (operands : list string)
    : result (InstructionLabeled * list string) :=
  let op := toUpperCase mnemonic in
  if String.eqb op "NOP" then
    opcode <- n2t 0 ;;
    x <- n2t 0 ;;
    y <- n2t 0 ;;
    Ok ({| opcode := opcode;
           addressingMode := REGISTER_REGISTER;
           x := x;
           y := y;
           z := None |}, operands)
  else if String.eqb op "MOV" then
    registerThenYZ 0
      "MOV: operand 1 (destination) must be a register"
      "MOV: operand 2 (source) must be a register or immediate" operands
  else if String.eqb op "ADD" then
    registerThenYZ (-39)
      "ADD: operand 1 must be a register"
      "ADD: operand 2 must be a register or immediate" operands
  else if String.eqb op "MUL" then
    registerThenYZ (-37)
      "MUL: operand 1 must be a register"
      "MUL: operand 2 must be a register or immediate" operands
  else if String.eqb op "DIV" then
    registerThenYZ (-36)
      "DIV: operand 1 must be a register"
      "DIV: operand 2 must be a register or immediate" operands
  else if String.eqb op "STA" then
    registerThenYZ 2
      "STA: operand 1 must be a register"
      "STA: operand 2 must be a register or address" operands
  else if String.eqb op "LDA" then
    registerThenYZ 1
      "LDA: operand 1 must be a register"
      "LDA: operand 2 must be a register or address" operands
  else if String.eqb op "JMP" then
    opcode <- n2t 36 ;;
    x <- n2t 0 ;;
    let '(operand, operands) := shift operands in
    parsed <- unionParseYZ {| partialOpcode := opcode; partialX := x |} operand true ;;
    instruction <- expect parsed "JMP: operand must be a register or immediate address" ;;
    Ok (instruction, operands)
  else
    Err (Error ("unknown operation '" +:+ mnemonic +:+ "'")).

Definition assembleOpcodeStr (str : string) : result Tryte :=
  let op := toUpperCase str in
  if String.eqb op "ADD" then n2t (-13)
  else if String.eqb op "ADDC" then n2t (-11)
  else if String.eqb op "MUL" then n2t (-10)
  else if String.eqb op "DIV" then n2t (-9)
  else if String.eqb op "MOD" then n2t (-8)
  else if String.eqb op "NEG" then n2t (-7)
  else if String.eqb op "MIN" then n2t (-6)
  else if String.eqb op "MAX" then n2t (-5)
  else if String.eqb op "CON" then n2t (-4)
  else if String.eqb op "ANY" then n2t (-3)
  else if String.eqb op "RSH" then n2t (-2)
  else if String.eqb op "USH" then n2t (-1)
  else if String.eqb op "NOP" then n2t 0
  else if String.eqb op "MOV" then n2t 1
  else if String.eqb op "CMP" then n2t 2
  else if String.eqb op "JMP" then n2t 3
  else if String.eqb op "BEQ" then n2t 4
  else if String.eqb op "BGT" then n2t 5
  else if String.eqb op "BLT" then n2t 6
  else if String.eqb op "JAL" then n2t 7
  else if String.eqb op "LOD" then n2t 8
  else if String.eqb op "XOR" then n2t 9
  else Err (Error ("Unknown instruction: " +:+ str)).

(** The two statements that open the instruction branch of both passes:
    [const [mnemonic, ...operands] = parseInstructionParts(line)] and
    [const instruction = parseInstruction(mnemonic, operands)].  With no
    part at all [mnemonic] is [undefined] and [toUpperCase] raises. *)
Definition parseLine (line : string)
    : result (string * InstructionLabeled * list string) :=
  match parseInstructionParts line with
  | [] => Err TypeError
  | mnemonic :: operands =>
      parsed <- parseInstruction mnemonic operands ;;
      let '(instruction, operands) := parsed in
      Ok (mnemonic, instruction, operands)
  end.

(** ['ImmReg' stands for 'immediate or register.']  The tag tells the two
    apart, both being trytes. *)
Inductive ImmReg : Type :=
| ImmRegImmediate (data : Tryte)
| ImmRegRegister (data : Tryte).

Definition parseImmRegOperand (operand : option string)
    : result (option ImmReg) :=
  match parseImmediateOperand operand with
  | Some immediate => Ok (Some (ImmRegImmediate immediate))
  | None =>
      register <- parseRegisterOperand operand ;;
      match register with
      | Some selector => Ok (Some (ImmRegRegister selector))
      | None => Ok None
      end
  end.

End Parser.
Import Parser.

(** ** The heap of mutable objects, and the console *)

Module Heap.

Definition loc : Type := positive.

(** The objects [assemble] allocates: a [Memory] and a [Map] from label
    names to trytes. *)
Inductive object : Type :=
| MemoryObject (m : Memory.Memory)
| MapObject (m : gmap string Tryte).

Inductive consoleEntry : Type :=
| console_warn (arguments : list string)
| console_debug (text : string) (instruction : option InstructionLabeled).

Record World : Type := {
  heap : gmap loc object;
  console : list consoleEntry;
}.

(** A computation changes the world and returns or throws. *)
Definition M (A : Type) : Type := World -> World * result A.

Definition ret {A} (a : A) : M A := fun w => (w, Ok a).

Definition throw {A} (e : error) : M A := fun w => (w, Err e).

Definition lift {A} (r : result A) : M A := fun w => (w, r).

Definition bind {A B} (c : M A) (k : A -> M B) : M B :=
  fun w =>
    match c w with
    | (w', Ok a) => k a w'
    | (w', Err e) => (w', Err e)
    end.

(** [new ...]: the object is placed at a location the heap does not
    use. *)
Definition allocate (o : object) : M loc :=
  fun w =>
    let l := fresh (dom (heap w)) in
    ({| heap := <[l := o]> (heap w); console := console w |}, Ok l).

Definition newMemory (size : option Z) : M loc :=
  allocate (MemoryObject (Memory.new size)).

Definition newMap : M loc := allocate (MapObject ∅).

(** [labels.has(key)] *)
Definition mapHas (l : loc) (key : string) : M bool :=
  fun w =>
    match heap w !! l with
    | Some (MapObject m) => (w, Ok (bool_decide (is_Some (m !! key))))
    | _ => (w, Err TypeError)
    end.

(** [labels.set(key, value)] *)
Definition mapSet (l : loc) (key : string) (value : Tryte) : M unit :=
  fun w =>
    match heap w !! l with
    | Some (MapObject m) =>
        ({| heap := <[l := MapObject (<[key := value]> m)]> (heap w);
            console := console w |}, Ok tt)
    | _ => (w, Err TypeError)
    end.

(** The table as [assembleInstruction] finds it behind [labels]. *)
Definition mapRead (l : loc) : M (gmap string Tryte) :=
  fun w =>
    match heap w !! l with
    | Some (MapObject m) => (w, Ok m)
    | _ => (w, Err TypeError)
    end.

(** [cart.store(value, addr)] *)
Definition memoryStore (l : loc) (value addr : TryteOrNumber) : M unit :=
  fun w =>
    match heap w !! l with
    | Some (MemoryObject m) =>
        ({| heap := <[l := MemoryObject (Memory.store m value addr)]> (heap w);
            console := console w |}, Ok tt)
    | _ => (w, Err TypeError)
    end.

Definition consoleWrite (entry : consoleEntry) : M unit :=
  fun w => ({| heap := heap w; console := console w ++ [entry] |}, Ok tt).

(** [for (const line of lines) body], the loop's variables threaded
    through as [s]. *)
Fixpoint forOf {S} (body : string -> S -> M S) (lines : list string) (s : S)
    : M S :=
  match lines with
  | [] => ret s
  | line :: rest => bind (body line s) (forOf body rest)
  end.

End Heap.
Import Heap.

Notation "x <~ c ;; k" := (bind c (fun x => k))
  (at level 20, c at level 99, k at level 200, only parsing).

(** ** [asm/assemble.ts]: the two passes *)

Module Assembler.

(** [debug: { labels, instructions }]; [instructions] is an array
    written at the integer of an address, a sparse map here. *)
Record DebugInfo : Type := {
  labels : loc;
  instructions : gmap Z InstructionLabeled;
}.

Record Assembled : Type := {
  mem : loc;
  debug : DebugInfo;
}.

(** The filtered lines both passes run over. *)
Definition preprocess (input : string) : list string :=
  filter (fun line => (0 < String.length line)%nat)
         (map (fun line => trim (removeComment line)) (splitLines input)).

(** [line[0] != '.'] *)
Definition isInstruction (line : string) : bool :=
  negb (bool_decide (first line = Some "."%char)).

(** The body of the first loop; [address] is the cursor. *)
Definition pass1Body (labels : loc) (line : string) (address : Tryte)
    : M Tryte :=
  if isInstruction line then
    parsed <~ lift (parseLine line) ;;
    let '(mnemonic, instruction, operands) := parsed in
    if Nat.ltb 0 (length operands) then
      throw (Error (mnemonic +:+ ": too many operands"))
    else
      one <~ lift (n2t 1) ;;
      let address := add address one in
      if truthy (z instruction) then
        one <~ lift (n2t 1) ;;
        ret (add address one)
      else ret address
  else
    let labelName := substr1 line in
    redeclared <~ mapHas labels labelName ;;
    _ <~ (if redeclared : bool
          then consoleWrite (console_warn ["label redeclared:"; labelName])
          else ret tt) ;;
    _ <~ mapSet labels labelName (clone address) ;;
    ret address.

Section Pass2.

Variable packFirstWord : Tryte -> AddressingMode -> Tryte -> Tryte -> Tryte.

(** The body of the second loop; the cursor and the [instructions]
    array are the loop's variables. *)
Definition pass2Body (cart labels : loc) (line : string)
    (state : Tryte * gmap Z InstructionLabeled)
    : M (Tryte * gmap Z InstructionLabeled) :=
  let '(address, instructions) := state in
  if isInstruction line then
    parsed <~ lift (parseLine line) ;;
    let '(mnemonic, instruction, operands) := parsed in
    let instructions := <[t2n (word address) := instruction]> instructions in
    table <~ mapRead labels ;;
    data <~ lift (assembleInstruction packFirstWord instruction table) ;;
    _ <~ consoleWrite
           (console_debug ("$" +:+ t2s address +:+ ": " +:+ t2s (fst data) +:+ " " +:+ line)
                  (Some instruction)) ;;
    _ <~ memoryStore cart (word (fst data)) (word address) ;;
    one <~ lift (n2t 1) ;;
    let address := add address one in
    match snd data with
    | Some data1 =>
        _ <~ consoleWrite (console_debug ("$" +:+ t2s address +:+ ": " +:+ t2s data1) None) ;;
        _ <~ memoryStore cart (word data1) (word address) ;;
        one <~ lift (n2t 1) ;;
        ret (add address one, instructions)
    | None => ret (address, instructions)
    end
  else ret (address, instructions).

(** [new ALU()] is left out: the passes use of it only [add], which the
    model has as a function. *)
Definition assemble (input : string) : M Assembled :=
  let lines := preprocess input in
  cart <~ newMemory None ;;
  labels <~ newMap ;;
  address <~ lift (s2t "ooooooooo") ;;
  _ <~ forOf (pass1Body labels) lines address ;;
  address <~ lift (s2t "ooooooooo") ;;
  final <~ forOf (pass2Body cart labels) lines (address, ∅) ;;
  ret {| mem := cart;
         debug := {| labels := labels; instructions := snd final |} |}.

End Pass2.

End Assembler.


(** * Properties *)

(** ** The numeral codec *)

Module ALUFacts.

(** The value of a digit sequence by Horner's rule. *)
Definition horner (ts : list Trit) : Z :=
  fold_left (fun acc d => 3 * acc + tritValue d) ts 0.

(** The largest magnitude [k] digits express. *)
Fixpoint bound (k : nat) : Z :=
  match k with
  | O => 0
  | S k' => 3 * bound k' + 1
  end.

Lemma horner_snoc ts d : horner (ts ++ [d]) = 3 * horner ts + tritValue d.
Proof. unfold horner. now rewrite fold_left_app. Qed.

Lemma wordToInt_horner w : wellFormed w -> wordToInt w = horner w.
Proof.
  unfold wellFormed. intros Hlen.
  do 10 (destruct w as [|? w]; try discriminate Hlen).
  unfold wordToInt, horner. cbn. lia.
Qed.

Lemma tritOf_value d : tritOf (tritValue d) = d.
Proof. now destruct d. Qed.

Lemma intToDigits_acc k : forall n acc,
  intToDigits k n acc = intToDigits k n [] ++ acc.
Proof.
  induction k as [|k IH]; intros n acc; [reflexivity|].
  cbn [intToDigits]. rewrite IH. rewrite (IH _ [_]).
  now rewrite <- app_assoc.
Qed.

Lemma length_intToDigits k : forall n acc,
  length (intToDigits k n acc) = (k + length acc)%nat.
Proof.
  induction k as [|k IH]; intros n acc; [reflexivity|].
  cbn [intToDigits]. rewrite IH. cbn [length]. lia.
Qed.

Lemma horner_bound ts : - bound (length ts) <= horner ts <= bound (length ts).
Proof.
  induction ts as [|d ts IH] using rev_ind; [cbn; lia|].
  rewrite horner_snoc, length_app, Nat.add_comm. cbn [length Nat.add bound].
  destruct d; cbn [tritValue]; lia.
Qed.

(** Digits of a value: the sequence itself. *)
Lemma intToDigits_horner ts : intToDigits (length ts) (horner ts) [] = ts.
Proof.
  induction ts as [|d ts IH] using rev_ind; [reflexivity|].
  rewrite horner_snoc, length_app, Nat.add_comm. cbn [length Nat.add intToDigits].
  assert (Hr : (3 * horner ts + tritValue d + 1) mod 3 - 1 = tritValue d).
  { replace (3 * horner ts + tritValue d + 1)
      with (tritValue d + 1 + horner ts * 3) by lia.
    rewrite Z_mod_plus_full. destruct d; reflexivity. }
  rewrite Hr, tritOf_value.
  replace (3 * horner ts + tritValue d - tritValue d) with (horner ts * 3) by lia.
  rewrite Z_div_mult_full by lia.
  now rewrite intToDigits_acc, IH.
Qed.

(** Value of the digits: the integer itself, within the bound. *)
Lemma horner_intToDigits k : forall n,
  - bound k <= n <= bound k -> horner (intToDigits k n []) = n.
Proof.
  induction k as [|k IH]; intros n Hn; [cbn in *; lia|].
  cbn [intToDigits bound] in *.
  set (r := (n + 1) mod 3 - 1).
  assert (Hr : -1 <= r <= 1) by (unfold r; pose proof (Z.mod_pos_bound (n + 1) 3); lia).
  assert (Hq : n - r = (n - r) / 3 * 3).
  { assert (Hm : (n - r) mod 3 = 0).
    { unfold r. replace (n - ((n + 1) mod 3 - 1)) with (n + 1 - (n + 1) mod 3) by lia.
      rewrite Zminus_mod, Zmod_mod, Z.sub_diag. reflexivity. }
    pose proof (Z_div_mod_eq_full (n - r) 3). lia. }
  rewrite intToDigits_acc, horner_snoc, IH by lia.
  assert (tritValue (tritOf r) = r).
  { unfold tritOf. destruct (Z.ltb_spec r 0); [cbn; lia|].
    destruct (Z.eqb_spec r 0); cbn; lia. }
  lia.
Qed.

Lemma n2t_wordToInt w : wellFormed w -> n2t (wordToInt w) = Ok w.
Proof.
  intros Hw. rewrite (wordToInt_horner _ Hw). unfold n2t.
  pose proof (horner_bound w) as Hb. rewrite Hw in Hb. cbn in Hb.
  destruct (Z.leb_spec (-9841) (horner w)); [|lia].
  destruct (Z.leb_spec (horner w) 9841); [|lia].
  cbn [andb]. f_equal.
  pose proof (intToDigits_horner w) as Hd. unfold wellFormed in Hw.
  now rewrite Hw in Hd.
Qed.

Lemma n2t_inRange n :
  -9841 <= n <= 9841 ->
  exists w, n2t n = Ok w /\ wellFormed w /\ wordToInt w = n.
Proof.
  intros Hn. exists (intToDigits 9 n []). unfold n2t.
  destruct (Z.leb_spec (-9841) n); [|lia].
  destruct (Z.leb_spec n 9841); [|lia].
  assert (Hw : wellFormed (intToDigits 9 n [])) by apply length_intToDigits.
  split; [reflexivity|]. split; [exact Hw|].
  rewrite (wordToInt_horner _ Hw). now apply horner_intToDigits.
Qed.

Lemma wordToInt_inRange w : wellFormed w -> -9841 <= wordToInt w <= 9841.
Proof.
  intros Hw. rewrite (wordToInt_horner _ Hw).
  pose proof (horner_bound w) as Hb. now rewrite Hw in Hb.
Qed.

Lemma add_wellFormed a b : wellFormed (add a b).
Proof. apply length_intToDigits. Qed.

End ALUFacts.


(** ** Memory *)

Module MemoryFacts.
Import Memory ALUFacts.

Lemma get_set_eq b i v :
  0 <= i < Z.of_nat (length b) -> get (set b i v) i = Some (ToInt32 v).
Proof.
  intros Hi. unfold get, set.
  destruct (Z.leb_spec 0 i); [|lia].
  apply list_lookup_insert_eq. lia.
Qed.

Lemma get_set_ne b i j v : i <> j -> get (set b i v) j = get b j.
Proof.
  intros Hij. unfold get, set.
  destruct (Z.leb_spec 0 j); [|reflexivity].
  destruct (Z.leb_spec 0 i); [|reflexivity].
  apply list_lookup_insert_ne. lia.
Qed.



Lemma ToInt32_small n : - 2 ^ 31 <= n < 2 ^ 31 -> ToInt32 n = n.
Proof.
  intros Hn. unfold ToInt32. rewrite Z.mod_small; lia.
Qed.

Lemma t2n_representable v : representable v -> inRange (t2n v).
Proof.
  destruct v as [t|n]; cbn; [apply wordToInt_inRange|trivial].
Qed.


Lemma new_fullSize size : fullSize (new size).
Proof.
  unfold fullSize, new. cbn [block]. rewrite length_replicate.
  apply Z2Nat.id. unfold TRYTE_NUM_VALUES. lia.
Qed.


(** C10: whatever is passed for [size], the constructor allocates
    [TRYTE_NUM_VALUES] = 19683 cells; the argument is never read. *)
Theorem new_ignores_size (size : option Z) :
  Z.of_nat (length (block (new size))) = 19683
  /\ new size = new None.
Proof.
  split; [apply (new_fullSize size)|reflexivity].
Qed.

(** C5: in a full-size memory, after [store(v, a)] at an in-range address
    [a] with a representable value [v], [load(a)] returns the word of
    [v] ([v] itself when [v] is a word, the word whose integer is [v]
    when [v] is a number), and [load(b)] at every other in-range address
    [b] returns what it returned before the store. *)
Theorem store_then_load u m v a :
  fullSize m -> representable a -> representable v ->
  (exists w, load u (store m v a) a = Ok w
             /\ wellFormed w
             /\ t2n (word w) = t2n v
             /\ (forall t, v = word t -> w = t))
  /\ (forall b, representable b -> t2n b <> t2n a ->
        load u (store m v a) b = load u m b).
Proof.
  intros Hm Ha Hv.
  apply t2n_representable in Ha. unfold inRange in Ha.
  pose proof (t2n_representable v Hv) as Hr. unfold inRange in Hr.
  unfold fullSize, TRYTE_NUM_VALUES in Hm.
  split.
  - unfold load, store. cbn [block].
    rewrite get_set_eq by lia. rewrite ToInt32_small by lia.
    destruct v as [t|n]; cbn [t2n] in *.
    + exists t. rewrite n2t_wordToInt by exact Hv.
      repeat split; [exact Hv|]. now intros ? [= ->].
    + destruct (n2t_inRange n Hr) as (w & Hw & Hwf & Hval).
      exists w. repeat split; [exact Hw|exact Hwf|exact Hval|discriminate].
  - intros b Hb Hne. unfold load, store. cbn [block].
    rewrite get_set_ne by lia. reflexivity.
Qed.

Lemma store_then_load_witness :
  (exists w, load (Err TypeError)
               (store (new None) (number 5) (number (-3118))) (number (-3118)) = Ok w
             /\ wellFormed w
             /\ t2n (word w) = t2n (number 5)
             /\ (forall t, number 5 = word t -> w = t))
  /\ (forall b, representable b -> t2n b <> t2n (number (-3118)) ->
        load (Err TypeError) (store (new None) (number 5) (number (-3118))) b
        = load (Err TypeError) (new None) b).
Proof.
  apply (store_then_load (Err TypeError) (new None) (number 5) (number (-3118))).
  - vm_compute. reflexivity.
  - cbn. unfold inRange. lia.
  - cbn. unfold inRange. lia.
Defined.




End MemoryFacts.


(** ** The parser *)

Module ParserFacts.
Import ALUFacts.

Definition zero : Tryte :=
  [Nought; Nought; Nought; Nought; Nought; Nought; Nought; Nought; Nought].

Definition one : Tryte :=
  [Nought; Nought; Nought; Nought; Nought; Nought; Nought; Nought; Plus].

Lemma n2t_0 : n2t 0 = Ok zero.
Proof. reflexivity. Qed.

Lemma n2t_1 : n2t 1 = Ok one.
Proof. reflexivity. Qed.

Lemma s2t_zero : s2t "ooooooooo" = Ok zero.
Proof. reflexivity. Qed.

(** The second word is present exactly under [WORD_IMMEDIATE], it is
    never the empty label name, and both selectors fit their fields. *)
Definition wellShaped (i : InstructionLabeled) : Prop :=
  selectorInRange (x i) = true
  /\ selectorInRange (y i) = true
  /\ (addressingMode i = WORD_IMMEDIATE <-> z i <> None)
  /\ z i <> Some (ZLabel EmptyString).

(** The conjunction the condition of [isShort] asks for has no
    solution. *)
Lemma isShort_false value : isShort value = false.
Proof.
  unfold isShort. destruct (Z.gtb_spec (t2n (word value)) 4); [|reflexivity].
  destruct (Z.ltb_spec (t2n (word value)) (-4)); [lia|reflexivity].
Qed.

Lemma parseRegisterOperand_total operand :
  exists r, parseRegisterOperand operand = Ok r
            /\ forall t, r = Some t -> selectorInRange t = true.
Proof.
  unfold parseRegisterOperand.
  destruct (missing operand); [exists None; split; [reflexivity|discriminate]|].
  repeat (destruct (String.eqb _ _);
          [eexists; split; [vm_compute; reflexivity|now intros t [= <-]]|]).
  exists None. split; [reflexivity|discriminate].
Qed.

Lemma unionParseYZ_shape partial operand allowLabel :
  exists r, unionParseYZ partial operand allowLabel = Ok r
    /\ forall i, r = Some i ->
         opcode i = partialOpcode partial
         /\ x i = partialX partial
         /\ selectorInRange (y i) = true
         /\ (addressingMode i = WORD_IMMEDIATE <-> z i <> None)
         /\ z i <> Some (ZLabel EmptyString)
         /\ addressingMode i <> SHORT_IMMEDIATE.
Proof.
  unfold unionParseYZ.
  destruct (parseRegisterOperand_total operand) as (r & -> & Hr). cbn [rbind].
  destruct r as [register|].
  - eexists. split; [reflexivity|]. intros i [= <-]. cbn.
    rewrite (Hr register eq_refl). repeat split; try congruence; try discriminate.
  - destruct (parseImmediateOperand operand) as [asImmediate|].
    + rewrite isShort_false, n2t_0. cbn [rbind].
      eexists. split; [reflexivity|]. intros i [= <-]. cbn.
      repeat split; try congruence; try discriminate.
    + destruct allowLabel; [|exists None; split; [reflexivity|discriminate]].
      cbv zeta. destruct (truthy (parseAddressOperand operand)) eqn:Ht;
        [|exists None; split; [reflexivity|discriminate]].
      rewrite n2t_0. cbn [rbind].
      eexists. split; [reflexivity|]. intros i [= <-]. cbn.
      repeat split; try congruence; try discriminate.
      * intros _ Hnone. rewrite Hnone in Ht. discriminate.
      * intros Hempty. rewrite Hempty in Ht. discriminate.
Qed.

(** Only a jump takes a label. *)
Lemma unionParseYZ_no_label partial operand i :
  unionParseYZ partial operand false = Ok (Some i) ->
  forall name, z i <> Some (ZLabel name).
Proof.
  unfold unionParseYZ.
  destruct (parseRegisterOperand_total operand) as (r & -> & _). cbn [rbind].
  destruct r as [register|]; [now intros [= <-]|].
  destruct (parseImmediateOperand operand) as [asImmediate|]; [|discriminate].
  rewrite isShort_false, n2t_0. cbn [rbind]. now intros [= <-].
Qed.

(** What a case of the form [registerThenYZ] returns. *)
Lemma registerThenYZ_shape k error1 error2 operands i rest :
  registerThenYZ k error1 error2 operands = Ok (i, rest) ->
  n2t k = Ok (opcode i) /\ wellShaped i
  /\ addressingMode i <> SHORT_IMMEDIATE
  /\ forall name, z i <> Some (ZLabel name).
Proof.
  unfold registerThenYZ.
  destruct (n2t k) as [op|]; [|discriminate]. cbn [rbind].
  destruct (shift operands) as [operand1 operands1].
  destruct (parseRegisterOperand_total operand1) as (r & -> & Hr). cbn [rbind].
  destruct r as [register|]; [|discriminate]. cbn [expect rbind].
  destruct (shift operands1) as [operand2 operands2].
  destruct (unionParseYZ_shape {| partialOpcode := op; partialX := register |}
              operand2 false) as (p & Hp & Hshape).
  pose proof (unionParseYZ_no_label {| partialOpcode := op; partialX := register |}
              operand2) as Hlabel.
  rewrite Hp in *. cbn [rbind].
  destruct p as [parsed|]; [|discriminate]. cbn [expect rbind].
  intros [= <- <-].
  destruct (Hshape parsed eq_refl) as (Hop & Hx & Hy & Hz & He & Hs).
  cbn in Hop, Hx.
  split; [now rewrite Hop|]. split; [|split; [exact Hs|now apply Hlabel]].
  split; [rewrite Hx; now apply Hr|]. split; [exact Hy|]. split; [exact Hz|exact He].
Qed.

(** The opcode [parseInstruction] assigns to an upper-cased mnemonic. *)
Definition assignedOpcode (op : string) : Z :=
  if String.eqb op "NOP" then 0
  else if String.eqb op "MOV" then 0
  else if String.eqb op "ADD" then -39
  else if String.eqb op "MUL" then -37
  else if String.eqb op "DIV" then -36
  else if String.eqb op "STA" then 2
  else if String.eqb op "LDA" then 1
  else 36.

Definition supported : list string :=
  ["NOP"; "MOV"; "ADD"; "MUL"; "DIV"; "STA"; "LDA"; "JMP"].

Lemma parseInstruction_shape mnemonic operands i rest :
  parseInstruction mnemonic operands = Ok (i, rest) ->
  In (toUpperCase mnemonic) supported
  /\ n2t (assignedOpcode (toUpperCase mnemonic)) = Ok (opcode i)
  /\ wellShaped i
  /\ addressingMode i <> SHORT_IMMEDIATE.
Proof.
  unfold parseInstruction, assignedOpcode, supported. cbv zeta.
  destruct (String.eqb_spec (toUpperCase mnemonic) "NOP") as [->|_].
  { cbn. intros [= <- <-]. cbn.
    repeat split; try tauto; try discriminate; try congruence. }
  repeat match goal with
  | |- context [String.eqb (toUpperCase mnemonic) ?s] =>
      destruct (String.eqb_spec (toUpperCase mnemonic) s) as [->|_];
      [intros H; apply registerThenYZ_shape in H;
       destruct H as (? & ? & ? & ?); cbn; tauto|]
  end.
  destruct (String.eqb_spec (toUpperCase mnemonic) "JMP") as [->|_]; [|discriminate].
  rewrite n2t_0. change (n2t 36) with (Ok (intToDigits 9 36 [])). cbn [rbind].
  destruct (shift operands) as [operand operands1].
  match goal with |- context [unionParseYZ ?p operand true] =>
    destruct (unionParseYZ_shape p operand true) as (r & -> & Hshape) end.
  cbn [rbind]. destruct r as [parsed|]; [|discriminate]. cbn [expect rbind].
  intros [= <- <-].
  destruct (Hshape parsed eq_refl) as (Hop & Hx & Hy & Hz & He & Hs).
  cbn in Hop, Hx.
  split; [cbn; tauto|]. split; [now rewrite Hop|]. split; [|exact Hs].
  split; [now rewrite Hx|]. split; [exact Hy|]. split; [exact Hz|exact He].
Qed.

Lemma n2t_value k w : n2t k = Ok w -> t2n (word w) = k.
Proof.
  unfold n2t. destruct (Z.leb_spec (-9841) k); [|discriminate].
  destruct (Z.leb_spec k 9841); [|discriminate]. cbn [andb]. intros [= <-].
  destruct (n2t_inRange k) as (w & Hw & _ & Hv); [lia|].
  unfold n2t in Hw. destruct (Z.leb_spec (-9841) k); [|lia].
  destruct (Z.leb_spec k 9841); [|lia]. cbn [andb] in Hw. now injection Hw as <-.
Qed.

(** C2 (as the code has it): the opcode [parseInstruction] gives an
    accepted mnemonic is NOP=0, MOV=0, ADD=-39, MUL=-37, DIV=-36, STA=2,
    LDA=1, JMP=36, within the four-trit range [-40, 40]; the table with
    MOV=1, JMP=3, ADD=-13, MUL=-10, DIV=-9, NOP=0, all within [-13, 9],
    is the table of [assembleOpcodeStr], which [assemble] never calls. *)
Theorem opcode_tables :
  (forall mnemonic operands i rest,
      parseInstruction mnemonic operands = Ok (i, rest) ->
      In (toUpperCase mnemonic, t2n (word (opcode i)))
         [("NOP", 0); ("MOV", 0); ("ADD", -39); ("MUL", -37);
          ("DIV", -36); ("STA", 2); ("LDA", 1); ("JMP", 36)]
      /\ -40 <= t2n (word (opcode i)) <= 40)
  /\ (forall str t,
        assembleOpcodeStr str = Ok t ->
        In (toUpperCase str, t2n (word t))
           [("ADD", -13); ("ADDC", -11); ("MUL", -10); ("DIV", -9);
            ("MOD", -8); ("NEG", -7); ("MIN", -6); ("MAX", -5);
            ("CON", -4); ("ANY", -3); ("RSH", -2); ("USH", -1);
            ("NOP", 0); ("MOV", 1); ("CMP", 2); ("JMP", 3); ("BEQ", 4);
            ("BGT", 5); ("BLT", 6); ("JAL", 7); ("LOD", 8); ("XOR", 9)]
        /\ -13 <= t2n (word t) <= 9).
Proof.
  split.
  - intros mnemonic operands i rest H.
    apply parseInstruction_shape in H. destruct H as (Hin & Hop & _).
    apply n2t_value in Hop. rewrite Hop.
    cbn in Hin.
    repeat (destruct Hin as [<-|Hin]; [cbn; split; [tauto|lia]|]).
    destruct Hin.
  - intros str t. unfold assembleOpcodeStr. cbv zeta.
    repeat match goal with
    | |- context [String.eqb (toUpperCase str) ?s] =>
        destruct (String.eqb_spec (toUpperCase str) s) as [->|_];
        [intros H; apply n2t_value in H; rewrite H; cbn; split; [tauto|lia]|]
    end.
    discriminate.
Qed.

(** [add r0, r1] as [parseInstruction] returns it. *)
Definition sampleAdd : InstructionLabeled :=
  {| opcode := intToDigits 9 (-39) [];
     addressingMode := REGISTER_REGISTER;
     x := intToDigits 9 (-4) [];
     y := intToDigits 9 (-3) [];
     z := None |}.

Lemma opcode_tables_witness :
  (In (toUpperCase "add", t2n (word (opcode sampleAdd)))
      [("NOP", 0); ("MOV", 0); ("ADD", -39); ("MUL", -37);
       ("DIV", -36); ("STA", 2); ("LDA", 1); ("JMP", 36)]
   /\ -40 <= t2n (word (opcode sampleAdd)) <= 40)
  /\ -13 <= t2n (word (intToDigits 9 (-13) [])) <= 9.
Proof.
  destruct opcode_tables as [Hparser Hlegacy]. split.
  - apply (Hparser "add" ["r0"; " r1"] sampleAdd []). vm_compute. reflexivity.
  - apply (Hlegacy "add" (intToDigits 9 (-13) [])). vm_compute. reflexivity.
Defined.

(** C2 (as stated) fails: [ADD r0, r1] parses to an instruction whose
    opcode is -39, which is neither the -13 of the table nor within
    [-13, 9]; and [MOV] gets 0, not 1. *)
Lemma parser_opcode_off_table :
  exists add mov,
    parseInstruction "ADD" ["r0"; " r1"] = Ok (add, [])
    /\ parseInstruction "MOV" ["r0"; " r1"] = Ok (mov, [])
    /\ t2n (word (opcode add)) = -39
    /\ t2n (word (opcode add)) <> -13
    /\ ~ (-13 <= t2n (word (opcode add)) <= 9)
    /\ t2n (word (opcode mov)) = 0
    /\ t2n (word (opcode mov)) <> 1.
Proof.
  do 2 eexists. split; [vm_compute; reflexivity|].
  split; [vm_compute; reflexivity|].
  cbn. repeat split; try lia; try discriminate.
Qed.


(** The mnemonics that take a register first and a second operand. *)
Definition twoOperand : list string :=
  ["MOV"; "ADD"; "MUL"; "DIV"; "STA"; "LDA"].


End ParserFacts.


(** ** Worlds and loops *)

Module HeapFacts.

(** The world with the object at [l] replaced and some entries logged. *)
Definition updated (l : loc) (o : object) (entries : list consoleEntry)
    (w : World) : World :=
  {| heap := <[l := o]> (heap w); console := console w ++ entries |}.

Lemma world_eq (w1 w2 : World) :
  heap w1 = heap w2 -> console w1 = console w2 -> w1 = w2.
Proof. destruct w1, w2. cbn. now intros -> ->. Qed.

Lemma updated_id l o w : heap w !! l = Some o -> updated l o [] w = w.
Proof.
  intros H. apply world_eq; cbn; [now apply insert_id|apply app_nil_r].
Qed.

Lemma updated_updated l o1 o2 e1 e2 w :
  updated l o2 e2 (updated l o1 e1 w) = updated l o2 (e1 ++ e2) w.
Proof.
  apply world_eq; cbn; [apply insert_insert_eq|now rewrite app_assoc].
Qed.

Lemma heap_updated_eq l o e w : heap (updated l o e w) !! l = Some o.
Proof. cbn. apply lookup_insert_eq. Qed.

Lemma heap_updated_ne l l' o e w :
  l <> l' -> heap (updated l o e w) !! l' = heap w !! l'.
Proof. intros H. cbn. now apply lookup_insert_ne. Qed.

(** A loop whose body acts on one object [o] of the heap, at [l], and on
    the console, is summarised by a fold of a pure step. *)
Section Loop.

Context {S O : Type}.
Variable inj : O -> object.
Variable l : loc.
Variable stable : World -> Prop.
Variable body : string -> S -> M S.
Variable step : string -> S -> O -> result S * O * list consoleEntry.

Hypothesis stable_updated :
  forall w o e, stable w -> stable (updated l (inj o) e w).

Hypothesis body_step :
  forall line s o w,
    stable w -> heap w !! l = Some (inj o) ->
    body line s w
    = (updated l (inj (step line s o).1.2) (step line s o).2 w,
       (step line s o).1.1).

Fixpoint foldSteps (lines : list string) (s : S) (o : O)
    : result S * O * list consoleEntry :=
  match lines with
  | [] => (Ok s, o, [])
  | line :: rest =>
      match step line s o with
      | (Ok s1, o1, e1) =>
          let '(r, o2, e2) := foldSteps rest s1 o1 in (r, o2, e1 ++ e2)
      | (Err e, o1, e1) => (Err e, o1, e1)
      end
  end.

Lemma forOf_foldSteps lines : forall s o w,
  stable w -> heap w !! l = Some (inj o) ->
  forOf body lines s w
  = (updated l (inj (foldSteps lines s o).1.2) (foldSteps lines s o).2 w,
     (foldSteps lines s o).1.1).
Proof.
  induction lines as [|line rest IH]; intros s o w Hst Hl.
  - cbn. now rewrite updated_id.
  - cbn [forOf foldSteps]. unfold bind. rewrite (body_step line s o w Hst Hl).
    destruct (step line s o) as [[[s1|e] o1] e1]; cbn [fst snd]; [|reflexivity].
    rewrite (IH s1 o1); [|now apply stable_updated|apply heap_updated_eq].
    destruct (foldSteps rest s1 o1) as [[r o2] e2]. cbn [fst snd].
    now rewrite updated_updated.
Qed.

End Loop.

Lemma foldSteps_app {S O} (step : string -> S -> O -> result S * O * list consoleEntry)
    pre post : forall s o,
  foldSteps step (pre ++ post) s o
  = match foldSteps step pre s o with
    | (Ok s1, o1, e1) =>
        let '(r, o2, e2) := foldSteps step post s1 o1 in (r, o2, e1 ++ e2)
    | (Err e, o1, e1) => (Err e, o1, e1)
    end.
Proof.
  induction pre as [|line pre IH]; intros s o.
  - cbn. now destruct (foldSteps step post s o) as [[r o2] e2].
  - cbn [app foldSteps]. destruct (step line s o) as [[[s1|e] o1] e1]; [|reflexivity].
    rewrite IH. destruct (foldSteps step pre s1 o1) as [[[s2|e] o2] e2]; [|reflexivity].
    destruct (foldSteps step post s2 o2) as [[r o3] e3]. now rewrite app_assoc.
Qed.

(** A loop over [pre ++ post] runs over [pre], then over [post] from
    the state and the world [pre] leaves. *)
Lemma forOf_app {S} (body : string -> S -> M S) pre post : forall s w,
  forOf body (pre ++ post) s w = bind (forOf body pre s) (forOf body post) w.
Proof.
  induction pre as [|line pre IH]; intros s w.
  - reflexivity.
  - cbn [app forOf]. unfold bind.
    destruct (body line s w) as [w1 [s1|e]]; [|reflexivity].
    rewrite IH. reflexivity.
Qed.

End HeapFacts.

(** ** The two passes *)

Module AssemblerFacts.
Import ALUFacts ParserFacts HeapFacts Assembler.

(** [if (instruction.z)] *)
Definition hasSecondWord (i : InstructionLabeled) : bool := truthy (z i).

(** The cursor one word further, or two. *)
Definition advance (address : Tryte) (twoWords : bool) : Tryte :=
  if twoWords then add (add address one) one else add address one.

(** The first pass on an instruction line: the line's instruction, unless
    the line fails to parse or leaves operands over. *)
Definition checkLine (line : string) : result InstructionLabeled :=
  match parseLine line with
  | Ok (mnemonic, i, operands) =>
      if Nat.ltb 0 (length operands)
      then Err (Error (mnemonic +:+ ": too many operands"))
      else Ok i
  | Err e => Err e
  end.

(** One turn of the first loop, on the cursor and the label table. *)
Definition step1 (line : string) (address : Tryte) (table : gmap string Tryte)
    : result Tryte * gmap string Tryte * list consoleEntry :=
  if isInstruction line then
    (rmap (fun i => advance address (hasSecondWord i)) (checkLine line), table, [])
  else
    (Ok address,
     <[substr1 line := address]> table,
     if bool_decide (is_Some (table !! substr1 line))
     then [console_warn ["label redeclared:"; substr1 line]]
     else []).

Lemma pass1Body_step1 l line address table w :
  heap w !! l = Some (MapObject table) ->
  pass1Body l line address w
  = (updated l (MapObject (step1 line address table).1.2)
             (step1 line address table).2 w,
     (step1 line address table).1.1).
Proof.
  intros Hl. unfold pass1Body, step1, checkLine.
  destruct (isInstruction line); cbn [fst snd].
  - rewrite (updated_id _ _ _ Hl). unfold bind, lift, throw, ret.
    destruct (parseLine line) as [[[mnemonic i] operands]|e]; [|reflexivity].
    destruct (Nat.ltb 0 (length operands)); [reflexivity|].
    rewrite n2t_1. cbn [rmap rbind]. unfold advance, hasSecondWord.
    now destruct (truthy (z i)).
  - unfold bind, mapHas, mapSet, consoleWrite, ret, clone. rewrite Hl.
    destruct (bool_decide (is_Some (table !! substr1 line))); cbn [heap console];
      rewrite Hl; f_equal; apply world_eq; cbn; trivial.
    now rewrite app_nil_r.
Qed.

Section Pass2.

Variable packFirstWord : Tryte -> AddressingMode -> Tryte -> Tryte -> Tryte.
Variable table : gmap string Tryte.

(** One turn of the second loop, on the cursor, the [instructions]
    array and the memory, against the finished label table. *)
Definition step2 (line : string) (state : Tryte * gmap Z InstructionLabeled)
    (m : Memory.Memory)
    : result (Tryte * gmap Z InstructionLabeled) * Memory.Memory
      * list consoleEntry :=
  if isInstruction line then
    match parseLine line with
    | Err e => (Err e, m, [])
    | Ok (mnemonic, i, operands) =>
        match assembleInstruction packFirstWord i table with
        | Err e => (Err e, m, [])
        | Ok (data0, data1) =>
            let instructions := <[t2n (word state.1) := i]> state.2 in
            let m1 := Memory.store m (word data0) (word state.1) in
            let entry :=
              console_debug ("$" +:+ t2s state.1 +:+ ": " +:+ t2s data0
                                 +:+ " " +:+ line) (Some i) in
            match data1 with
            | Some d =>
                (Ok (advance state.1 true, instructions),
                 Memory.store m1 (word d) (word (add state.1 one)),
                 [entry;
                  console_debug ("$" +:+ t2s (add state.1 one) +:+ ": " +:+ t2s d)
                                None])
            | None => (Ok (advance state.1 false, instructions), m1, [entry])
            end
        end
    end
  else (Ok state, m, []).

Lemma pass2Body_step2 cart labels line state m w :
  heap w !! labels = Some (MapObject table) ->
  heap w !! cart = Some (MemoryObject m) ->
  pass2Body packFirstWord cart labels line state w
  = (updated cart (MemoryObject (step2 line state m).1.2)
             (step2 line state m).2 w,
     (step2 line state m).1.1).
Proof.
  intros Hl Hc. unfold pass2Body, step2. destruct state as [address instructions].
  destruct (isInstruction line); cbn [fst snd];
    [|now rewrite (updated_id _ _ _ Hc)].
  unfold bind, lift, ret, mapRead, consoleWrite, memoryStore.
  destruct (parseLine line) as [[[mnemonic i] operands]|e]; cbn [fst snd];
    [|now rewrite (updated_id _ _ _ Hc)].
  rewrite Hl.
  destruct (assembleInstruction packFirstWord i table) as [[data0 data1]|e];
    cbn [fst snd]; [|now rewrite (updated_id _ _ _ Hc)].
  cbn [heap console fst snd]. rewrite Hc, n2t_1.
  destruct data1 as [d|]; cbn [heap console fst snd].
  - rewrite lookup_insert_eq. f_equal.
    apply world_eq; cbn; [apply insert_insert_eq|now rewrite <- app_assoc].
  - reflexivity.
Qed.

End Pass2.

(** The worlds a call passes through: after [new Memory()], and after
    [new Map()]. *)
Definition withCart (w : World) : World :=
  {| heap := <[fresh (dom (heap w)) := MemoryObject (Memory.new None)]> (heap w);
     console := console w |}.

Definition withLabels (w : World) : World :=
  {| heap := <[fresh (dom (heap w)) := MapObject ∅]> (heap w);
     console := console w |}.

Lemma in_dom_ne (d : gset loc) l fresh_l :
  l ∈ d -> fresh_l ∉ d -> fresh_l <> l.
Proof. intros Hin Hnot ->. contradiction. Qed.

(** The two locations a call allocates are new, and differ. *)
Lemma fresh_objects w :
  let cart := fresh (dom (heap w)) in
  let labels := fresh (dom (heap (withCart w))) in
  (cart ∉ dom (heap w)) /\ (labels ∉ dom (heap w)) /\ cart <> labels.
Proof.
  intros cart labels.
  assert (Hl : labels ∉ dom (heap (withCart w))) by apply is_fresh.
  unfold withCart in Hl. cbn [heap] in Hl. fold cart in Hl.
  rewrite dom_insert_L, not_elem_of_union, not_elem_of_singleton in Hl.
  destruct Hl as [Hne Hl].
  split; [apply is_fresh|]. split; [exact Hl|congruence].
Qed.

Lemma newMemory_run w :
  newMemory None w = (withCart w, Ok (fresh (dom (heap w)))).
Proof. reflexivity. Qed.

Lemma newMap_run w : newMap w = (withLabels w, Ok (fresh (dom (heap w)))).
Proof. reflexivity. Qed.

(** A call of [assemble], summarised: the two folds, on a world extended
    with two fresh objects. *)
Lemma assemble_run packFirstWord input w :
  let lines := preprocess input in
  let cart := fresh (dom (heap w)) in
  let labels := fresh (dom (heap (withCart w))) in
  let p1 := foldSteps step1 lines zero ∅ in
  let p2 := foldSteps (step2 packFirstWord p1.1.2) lines (zero, ∅) (Memory.new None) in
  let w1 := updated labels (MapObject p1.1.2) p1.2 (withLabels (withCart w)) in
  assemble packFirstWord input w
  = match p1.1.1 with
    | Err e => (w1, Err e)
    | Ok _ =>
        (updated cart (MemoryObject p2.1.2) p2.2 w1,
         match p2.1.1 with
         | Ok final =>
             Ok {| mem := cart;
                   debug := {| labels := labels; instructions := final.2 |} |}
         | Err e => Err e
         end)
    end.
Proof.
  intros lines cart labels p1 p2 w1.
  destruct (fresh_objects w) as (_ & _ & Hne). fold cart labels in Hne.
  unfold assemble. fold lines.
  unfold bind at 1. rewrite newMemory_run. fold cart.
  unfold bind at 1. rewrite newMap_run. fold labels.
  unfold bind at 1. rewrite s2t_zero. unfold lift at 1.
  unfold bind at 1.
  rewrite (forOf_foldSteps MapObject labels (fun _ => True) (pass1Body labels) step1
             (fun _ _ _ _ => I)
             (fun line s o w _ H => pass1Body_step1 labels line s o w H)
             lines zero ∅ (withLabels (withCart w)) I);
    [|unfold withLabels; cbn; fold labels; apply lookup_insert_eq].
  fold p1. fold w1.
  destruct (p1.1.1) as [a1|e]; [|reflexivity].
  unfold bind at 1. unfold lift at 1.
  unfold bind at 1.
  assert (Hl : heap w1 !! labels = Some (MapObject p1.1.2)) by apply heap_updated_eq.
  assert (Hc : heap w1 !! cart = Some (MemoryObject (Memory.new None))).
  { unfold w1. rewrite heap_updated_ne by congruence.
    unfold withLabels. cbn [heap]. fold labels.
    rewrite lookup_insert_ne by congruence.
    unfold withCart. cbn [heap]. fold cart. apply lookup_insert_eq. }
  rewrite (forOf_foldSteps MemoryObject cart
             (fun w => heap w !! labels = Some (MapObject p1.1.2))
             (pass2Body packFirstWord cart labels) (step2 packFirstWord p1.1.2))
    with (o := Memory.new None);
    [| |intros; now apply pass2Body_step2|exact Hl|exact Hc].
  - fold p2. destruct (p2.1.1) as [final|e]; reflexivity.
  - intros w' o e' Hw'. rewrite heap_updated_ne by congruence. exact Hw'.
Qed.

(** What a call leaves in the world, and what it returns. *)
Lemma assemble_effect packFirstWord input w :
  let lines := preprocess input in
  let cart := fresh (dom (heap w)) in
  let labels := fresh (dom (heap (withCart w))) in
  let p1 := foldSteps step1 lines zero ∅ in
  let p2 := foldSteps (step2 packFirstWord p1.1.2) lines (zero, ∅) (Memory.new None) in
  let r := assemble packFirstWord input w in
  (cart ∉ dom (heap w)) /\ (labels ∉ dom (heap w)) /\ cart <> labels
  /\ (forall l, l ∈ dom (heap w) -> heap r.1 !! l = heap w !! l)
  /\ heap r.1 !! labels = Some (MapObject p1.1.2)
  /\ match p1.1.1 with
     | Ok _ =>
         heap r.1 !! cart = Some (MemoryObject p2.1.2)
         /\ console r.1 = console w ++ p1.2 ++ p2.2
         /\ r.2 = match p2.1.1 with
                  | Ok final =>
                      Ok {| mem := cart;
                            debug := {| labels := labels;
                                        instructions := final.2 |} |}
                  | Err e => Err e
                  end
     | Err e =>
         heap r.1 !! cart = Some (MemoryObject (Memory.new None))
         /\ console r.1 = console w ++ p1.2
         /\ r.2 = Err e
     end.
Proof.
  intros lines cart labels p1 p2 r.
  destruct (fresh_objects w) as (Hc & Hl' & Hne). fold cart labels in Hc, Hl', Hne.
  assert (Hcart0 : heap (withLabels (withCart w)) !! cart
                   = Some (MemoryObject (Memory.new None))).
  { unfold withLabels. cbn [heap]. fold labels.
    rewrite lookup_insert_ne by congruence.
    unfold withCart. cbn [heap]. fold cart. apply lookup_insert_eq. }
  assert (Hframe0 : forall l, l ∈ dom (heap w) ->
                      heap (withLabels (withCart w)) !! l = heap w !! l).
  { intros l Hin. unfold withLabels. cbn [heap]. fold labels.
    rewrite lookup_insert_ne by (now apply (in_dom_ne (dom (heap w)))).
    unfold withCart. cbn [heap]. fold cart.
    apply lookup_insert_ne. now apply (in_dom_ne (dom (heap w))). }
  split; [exact Hc|]. split; [exact Hl'|]. split; [exact Hne|].
  pose proof (assemble_run packFirstWord input w) as Hrun.
  cbv zeta in Hrun. fold lines cart labels p1 p2 r in Hrun.
  destruct (p1.1.1) as [a1|e]; rewrite Hrun; cbn [fst snd].
  - split; [|split; [|split; [|split]]].
    + intros l Hin.
      rewrite !heap_updated_ne by (now apply (in_dom_ne (dom (heap w)))).
      now apply Hframe0.
    + rewrite heap_updated_ne by congruence. apply heap_updated_eq.
    + apply heap_updated_eq.
    + cbn. now rewrite <- app_assoc.
    + reflexivity.
  - split; [|split; [|split; [|split]]].
    + intros l Hin.
      rewrite heap_updated_ne by (now apply (in_dom_ne (dom (heap w)))).
      now apply Hframe0.
    + apply heap_updated_eq.
    + rewrite heap_updated_ne by congruence. exact Hcart0.
    + reflexivity.
    + reflexivity.
Qed.

(** From any two worlds a call on the same text ends alike, its two
    objects are fresh, and it leaves the objects of its world alone. *)
Lemma assemble_outcomes packFirstWord input (w1 w2 : World) :
  let r1 := assemble packFirstWord input w1 in
  let r2 := assemble packFirstWord input w2 in
  match r1.2, r2.2 with
  | Ok o1, Ok o2 =>
      (exists image table,
          heap r1.1 !! mem o1 = Some (MemoryObject image)
          /\ heap r2.1 !! mem o2 = Some (MemoryObject image)
          /\ heap r1.1 !! labels (debug o1) = Some (MapObject table)
          /\ heap r2.1 !! labels (debug o2) = Some (MapObject table))
      /\ instructions (debug o1) = instructions (debug o2)
      /\ (mem o1 ∉ dom (heap w1)) /\ (labels (debug o1) ∉ dom (heap w1))
      /\ mem o1 <> labels (debug o1)
  | Err e1, Err e2 => e1 = e2
  | _, _ => False
  end
  /\ (exists log, console r1.1 = console w1 ++ log
                  /\ console r2.1 = console w2 ++ log)
  /\ (forall l, l ∈ dom (heap w1) -> heap r1.1 !! l = heap w1 !! l).
Proof.
  intros r1 r2.
  pose proof (assemble_effect packFirstWord input w1) as H1.
  pose proof (assemble_effect packFirstWord input w2) as H2.
  cbv zeta in H1, H2. fold r1 in H1. fold r2 in H2.
  destruct H1 as (Hc1 & Hl1 & Hne1 & Hframe1 & Htab1 & H1).
  destruct H2 as (Hc2 & Hl2 & Hne2 & Hframe2 & Htab2 & H2).
  destruct ((foldSteps step1 (preprocess input) zero ∅).1.1) as [a|e].
  - destruct H1 as (Hm1 & Hlog1 & Hr1). destruct H2 as (Hm2 & Hlog2 & Hr2).
    rewrite Hr1, Hr2. split; [|split; [eauto|exact Hframe1]].
    destruct ((foldSteps _ (preprocess input) (zero, ∅) (Memory.new None)).1.1)
      as [final|e]; [|reflexivity].
    cbn [mem debug labels instructions]. split; [eauto 10|]. tauto.
  - destruct H1 as (Hm1 & Hlog1 & Hr1). destruct H2 as (Hm2 & Hlog2 & Hr2).
    rewrite Hr1, Hr2. split; [reflexivity|]. split; [eauto|exact Hframe1].
Qed.

(** C6: two calls of [assemble] on the same text, the second in the
    world the first has left, end alike: both throw the same error, or
    both return, and then the program images are equal, the label tables
    are equal, the [instructions] arrays are equal, and both calls write
    the same to the console.  The memory and the label map of the second
    call are objects of their own, at locations the first call never used,
    and the second call leaves the memory and the label map of the first
    as they were.  The outcome does not depend on the world at all: a call
    from any other world [w'] ends like the first. *)
Theorem assemble_deterministic_and_fresh packFirstWord input (w w' : World) :
  let r1 := assemble packFirstWord input w in
  let r2 := assemble packFirstWord input r1.1 in
  let r' := assemble packFirstWord input w' in
  match r1.2, r2.2 with
  | Ok o1, Ok o2 =>
      (exists image table,
          heap r1.1 !! mem o1 = Some (MemoryObject image)
          /\ heap r2.1 !! mem o1 = Some (MemoryObject image)
          /\ heap r2.1 !! mem o2 = Some (MemoryObject image)
          /\ heap r1.1 !! labels (debug o1) = Some (MapObject table)
          /\ heap r2.1 !! labels (debug o1) = Some (MapObject table)
          /\ heap r2.1 !! labels (debug o2) = Some (MapObject table))
      /\ instructions (debug o1) = instructions (debug o2)
      /\ NoDup [mem o1; labels (debug o1); mem o2; labels (debug o2)]
      /\ (mem o2 ∉ dom (heap r1.1)) /\ (labels (debug o2) ∉ dom (heap r1.1))
  | Err e1, Err e2 => e1 = e2
  | _, _ => False
  end
  /\ (exists log, console r1.1 = console w ++ log
                  /\ console r2.1 = console r1.1 ++ log)
  /\ match r1.2, r'.2 with
     | Ok o1, Ok o' =>
         heap r1.1 !! mem o1 = heap r'.1 !! mem o'
         /\ heap r1.1 !! labels (debug o1) = heap r'.1 !! labels (debug o')
         /\ instructions (debug o1) = instructions (debug o')
     | Err e1, Err e' => e1 = e'
     | _, _ => False
     end.
Proof.
  intros r1 r2 r'.
  pose proof (assemble_outcomes packFirstWord input w (r1.1)) as Hseq.
  pose proof (assemble_outcomes packFirstWord input (r1.1) w) as Hback.
  pose proof (assemble_outcomes packFirstWord input w w') as Hany.
  cbv zeta in Hseq, Hback, Hany. fold r1 r2 in Hseq, Hback. fold r1 r' in Hany.
  destruct Hseq as (Hseq & Hlog & _). destruct Hback as (Hback & _ & Hframe).
  destruct Hany as (Hany & _ & _).
  split; [|split].
  - destruct (r1.2) as [o1|e1], (r2.2) as [o2|e2]; try exact Hseq.
    destruct Hseq as ((image & table & Hm1 & Hm2 & Hl1 & Hl2) & Hins & _ & _ & Hne1).
    destruct Hback as (_ & _ & Hfm & Hfl & Hne2).
    assert (Hin1 : mem o1 ∈ dom (heap r1.1)) by (apply elem_of_dom; eauto).
    assert (Hin2 : labels (debug o1) ∈ dom (heap r1.1)) by (apply elem_of_dom; eauto).
    split; [|split; [exact Hins|split; [|split; assumption]]].
    + exists image, table.
      rewrite (Hframe _ Hin1), (Hframe _ Hin2). repeat split; assumption.
    + pose proof (in_dom_ne _ _ _ Hin1 Hfm). pose proof (in_dom_ne _ _ _ Hin1 Hfl).
      pose proof (in_dom_ne _ _ _ Hin2 Hfm). pose proof (in_dom_ne _ _ _ Hin2 Hfl).
      rewrite !NoDup_cons, !not_elem_of_cons.
      repeat split; try apply not_elem_of_nil; try apply NoDup_nil_2; congruence.
  - destruct Hlog as (log & Hlog1 & Hlog2). eauto.
  - destruct (r1.2) as [o1|e1], (r'.2) as [o'|e']; try exact Hany.
    destruct Hany as ((image & table & Hm1 & Hm2 & Hl1 & Hl2) & Hins & _).
    rewrite Hm1, Hm2, Hl1, Hl2. repeat split; trivial.
Qed.

(** *** Agreement of the two cursors *)

Lemma parseLine_shape line mnemonic i operands :
  parseLine line = Ok (mnemonic, i, operands) -> wellShaped i.
Proof.
  unfold parseLine. destruct (parseInstructionParts line) as [|m ops]; [discriminate|].
  destruct (parseInstruction m ops) as [[i' rest]|e] eqn:Hp; [|discriminate].
  cbn [rbind]. intros [= _ <- _]. now apply parseInstruction_shape in Hp.
Qed.

Lemma checkLine_shape line i : checkLine line = Ok i -> wellShaped i.
Proof.
  unfold checkLine.
  destruct (parseLine line) as [[[mnemonic i'] operands]|e] eqn:Hp; [|discriminate].
  destruct (Nat.ltb 0 (length operands)); [discriminate|].
  intros [= <-]. now apply parseLine_shape in Hp.
Qed.

Lemma checkLine_parseLine line i :
  checkLine line = Ok i -> exists mnemonic, parseLine line = Ok (mnemonic, i, []).
Proof.
  unfold checkLine.
  destruct (parseLine line) as [[[mnemonic i'] operands]|e]; [|discriminate].
  destruct operands; [|discriminate]. intros [= <-]. now exists mnemonic.
Qed.


Lemma assembleInstruction_succeeds packFirstWord i table :
  wellShaped i ->
  (forall name, z i = Some (ZLabel name) -> is_Some (table !! name)) ->
  exists data, assembleInstruction packFirstWord i table = Ok data.
Proof.
  intros (Hx & Hy & Hz & _) Hlabel. unfold assembleInstruction. rewrite Hx, Hy. cbn [andb].
  destruct (addressingMode i); [eauto|eauto|].
  destruct (z i) as [[w|name]|]; [eauto| |now destruct (proj1 Hz eq_refl)].
  destruct (Hlabel name eq_refl) as [address ->]. eauto.
Qed.





(** *** Programs that assemble *)

(** The line that declares the label [name]. *)
Definition labelLine (name : string) : string := String "."%char name.

Definition declares (lines : list string) (name : string) : bool :=
  existsb (String.eqb (labelLine name)) lines.

(** An instruction line is well formed in a program when it parses, leaves
    no operand over and, if it names a label, names one that the program
    declares.  A label line always is. *)
Definition lineOk (lines : list string) (line : string) : bool :=
  if isInstruction line then
    match checkLine line with
    | Ok i =>
        match z i with
        | Some (ZLabel name) => declares lines name
        | _ => true
        end
    | Err _ => false
    end
  else true.

Lemma isInstruction_labelLine name : isInstruction (labelLine name) = false.
Proof. reflexivity. Qed.

Lemma label_line_form line :
  isInstruction line = false -> line = labelLine (substr1 line).
Proof.
  unfold isInstruction, labelLine. destruct line as [|c rest]; [discriminate|].
  cbn. case_bool_decide as H; [|discriminate]. now injection H as ->.
Qed.

Lemma step1_label name address t :
  step1 (labelLine name) address t
  = (Ok address, <[name := address]> t,
     if bool_decide (is_Some (t !! name))
     then [console_warn ["label redeclared:"; name]] else []).
Proof. reflexivity. Qed.

Lemma step1_table line address t :
  (step1 line address t).1.2
  = if isInstruction line then t else <[substr1 line := address]> t.
Proof. unfold step1. now destruct (isInstruction line). Qed.

(** The first pass never removes a binding. *)
Lemma pass1_keeps lines name : forall address t,
  is_Some (t !! name) ->
  is_Some ((foldSteps step1 lines address t).1.2 !! name).
Proof.
  induction lines as [|line rest IH]; intros address t Hsome; [exact Hsome|].
  cbn [foldSteps]. pose proof (step1_table line address t) as Ht.
  destruct (step1 line address t) as [[[a|e] t1] e1]; cbn [fst snd] in Ht.
  - specialize (IH a t1).
    destruct (foldSteps step1 rest a t1) as [[r t2] e2]. cbn [fst snd] in *.
    apply IH. rewrite Ht. destruct (isInstruction line); [exact Hsome|].
    destruct (decide (substr1 line = name)) as [->|Hne].
    + rewrite lookup_insert_eq. eauto.
    + now rewrite lookup_insert_ne.
  - cbn [fst snd]. rewrite Ht. destruct (isInstruction line); [exact Hsome|].
    destruct (decide (substr1 line = name)) as [->|Hne].
    + rewrite lookup_insert_eq. eauto.
    + now rewrite lookup_insert_ne.
Qed.

(** Lines that do not declare [name] leave its binding as it is. *)
Lemma pass1_untouched lines name : forall address t,
  ~ In (labelLine name) lines ->
  (foldSteps step1 lines address t).1.2 !! name = t !! name.
Proof.
  induction lines as [|line rest IH]; intros address t Hnot; [reflexivity|].
  cbn [foldSteps]. pose proof (step1_table line address t) as Ht.
  assert (Hhere : (if isInstruction line then t else <[substr1 line := address]> t)
                  !! name = t !! name).
  { destruct (isInstruction line) eqn:Hi; [reflexivity|].
    apply lookup_insert_ne. intros Heq. apply Hnot. left.
    rewrite (label_line_form line Hi). now rewrite Heq. }
  destruct (step1 line address t) as [[[a|e] t1] e1]; cbn [fst snd] in Ht.
  - specialize (IH a t1).
    destruct (foldSteps step1 rest a t1) as [[r t2] e2]. cbn [fst snd] in *.
    rewrite IH; [now rewrite Ht|]. intros Hin. apply Hnot. now right.
  - cbn [fst snd]. now rewrite Ht.
Qed.

(** Every well-formed program passes the first pass. *)
Lemma pass1_succeeds program lines : forall address t,
  forallb (lineOk program) lines = true ->
  exists final, (foldSteps step1 lines address t).1.1 = Ok final.
Proof.
  induction lines as [|line rest IH]; intros address t Hok; [cbn; eauto|].
  cbn [forallb] in Hok. apply andb_true_iff in Hok as [Hline Hrest].
  cbn [foldSteps].
  assert (Hstep : exists a, (step1 line address t).1.1 = Ok a).
  { unfold step1, lineOk in *. destruct (isInstruction line); cbn [fst snd]; [|eauto].
    destruct (checkLine line); [cbn [rmap rbind]; eauto|discriminate]. }
  destruct Hstep as [a Ha].
  destruct (step1 line address t) as [[r t1] e1]. cbn [fst snd] in Ha. subst r.
  destruct (IH a t1 Hrest) as [final Hfinal].
  destruct (foldSteps step1 rest a t1) as [[r t2] e2]. cbn [fst snd] in *. eauto.
Qed.

(** A declared label is bound when the first pass ends. *)
Lemma pass1_binds_declared lines name : forall address t final,
  (foldSteps step1 lines address t).1.1 = Ok final ->
  declares lines name = true ->
  is_Some ((foldSteps step1 lines address t).1.2 !! name).
Proof.
  intros address t final Hok Hdecl. unfold declares in Hdecl.
  apply existsb_exists in Hdecl as (line & Hin & Heq).
  apply String.eqb_eq in Heq. subst line.
  apply in_split in Hin as (pre & post & ->).
  rewrite foldSteps_app in *.
  destruct (foldSteps step1 pre address t) as [[[a|e] t1] e1]; [|discriminate].
  cbn [foldSteps] in *. rewrite step1_label in *.
  pose proof (pass1_keeps post name a (<[name := a]> t1)) as Hkeep.
  destruct (foldSteps step1 post a (<[name := a]> t1)) as [[r t2] e2].
  cbn [fst snd] in *. apply Hkeep. rewrite lookup_insert_eq. eauto.
Qed.

(** With every declared label bound, every well-formed program passes
    the second pass. *)
Lemma pass2_succeeds packFirstWord program table lines : forall state m,
  (forall name, declares program name = true -> is_Some (table !! name)) ->
  forallb (lineOk program) lines = true ->
  exists final,
    (foldSteps (step2 packFirstWord table) lines state m).1.1 = Ok final.
Proof.
  induction lines as [|line rest IH]; intros state m Hbound Hok; [cbn; eauto|].
  cbn [forallb] in Hok. apply andb_true_iff in Hok as [Hline Hrest].
  cbn [foldSteps].
  assert (Hstep : exists s, (step2 packFirstWord table line state m).1.1 = Ok s).
  { unfold step2, lineOk in *. destruct (isInstruction line); cbn [fst snd]; [|eauto].
    destruct (checkLine line) as [i|e] eqn:Hc; [|discriminate].
    destruct (checkLine_parseLine _ _ Hc) as [mnemonic ->].
    destruct (assembleInstruction_succeeds packFirstWord i table
                (checkLine_shape _ _ Hc)) as [[data0 data1] ->].
    - intros name Hz. rewrite Hz in Hline. now apply Hbound.
    - destruct data1; cbn [fst snd]; eauto. }
  destruct Hstep as [s Hs].
  destruct (step2 packFirstWord table line state m) as [[r m1] e1].
  cbn [fst snd] in Hs. subst r.
  destruct (IH s m1 Hbound Hrest) as [final Hfinal].
  destruct (foldSteps (step2 packFirstWord table) rest s m1) as [[r m2] e2].
  cbn [fst snd] in *. eauto.
Qed.

(** A well-formed program assembles. *)
Lemma assemble_succeeds packFirstWord input w :
  forallb (lineOk (preprocess input)) (preprocess input) = true ->
  exists a1 final,
    (foldSteps step1 (preprocess input) zero ∅).1.1 = Ok a1
    /\ (foldSteps (step2 packFirstWord
                    (foldSteps step1 (preprocess input) zero ∅).1.2)
                  (preprocess input) (zero, ∅) (Memory.new None)).1.1 = Ok final
    /\ (assemble packFirstWord input w).2
       = Ok {| mem := fresh (dom (heap w));
               debug := {| labels := fresh (dom (heap (withCart w)));
                           instructions := final.2 |} |}.
Proof.
  intros Hok.
  destruct (pass1_succeeds _ _ zero ∅ Hok) as [a1 Ha1].
  destruct (pass2_succeeds packFirstWord (preprocess input)
              (foldSteps step1 (preprocess input) zero ∅).1.2
              (preprocess input) (zero, ∅) (Memory.new None)) as [final Hfinal].
  - intros name Hdecl. now apply (pass1_binds_declared _ _ _ _ a1).
  - exact Hok.
  - exists a1, final. split; [exact Ha1|]. split; [exact Hfinal|].
    pose proof (assemble_run packFirstWord input w) as Hrun. cbv zeta in Hrun.
    rewrite Hrun, Ha1, Hfinal. reflexivity.
Qed.

(** What a line logs stays in the log of a loop that runs to its
    end. *)
Lemma foldSteps_at {S O}
    (step : string -> S -> O -> result S * O * list consoleEntry)
    pre line post s o final :
  (foldSteps step (pre ++ line :: post) s o).1.1 = Ok final ->
  exists s1 o1 e1 e3,
    foldSteps step pre s o = (Ok s1, o1, e1)
    /\ (foldSteps step (pre ++ line :: post) s o).2
       = e1 ++ (step line s1 o1).2 ++ e3
    /\ (foldSteps step (pre ++ line :: post) s o).1.2
       = match (step line s1 o1).1.1 with
         | Ok s2 => (foldSteps step post s2 (step line s1 o1).1.2).1.2
         | Err _ => (step line s1 o1).1.2
         end.
Proof.
  rewrite foldSteps_app.
  destruct (foldSteps step pre s o) as [[[s1|e] o1] e1]; [|discriminate].
  cbn [foldSteps].
  destruct (step line s1 o1) as [[[s2|e] o2] e2] eqn:Hstep; [|discriminate].
  destruct (foldSteps step post s2 o2) as [[r o3] e3] eqn:Hpost. cbn [fst snd].
  intros _. exists s1, o1, e1, e3. rewrite Hstep. cbn [fst snd].
  now rewrite Hpost.
Qed.

(** *** Forward references *)





Lemma pass1_world l lines w :
  heap w !! l = Some (MapObject ∅) ->
  forOf (pass1Body l) lines zero w
  = (updated l (MapObject (foldSteps step1 lines zero ∅).1.2)
             (foldSteps step1 lines zero ∅).2 w,
     (foldSteps step1 lines zero ∅).1.1).
Proof.
  intros Hl.
  exact (forOf_foldSteps MapObject l (fun _ => True) (pass1Body l) step1
           (fun _ _ _ _ => I)
           (fun line s o w _ H => pass1Body_step1 l line s o w H)
           lines zero ∅ w I Hl).
Qed.

Lemma withLabels_lookup w :
  heap (withLabels w) !! fresh (dom (heap w)) = Some (MapObject ∅).
Proof. unfold withLabels. cbn [heap]. apply lookup_insert_eq. Qed.



(** *** Redeclared labels *)

(** C9: let a program declare the label [name] twice, the second
    declaration being its last, and hold only well-formed instruction
    lines.  Then the call returns, the console receives the warning
    for [name], and the label table binds [name] to the cursor of the
    first pass at the last declaration. *)
Theorem label_redeclaration packFirstWord input w pre mid post name :
  preprocess input = pre ++ labelLine name :: mid ++ labelLine name :: post ->
  ~ In (labelLine name) post ->
  forallb (lineOk (preprocess input)) (preprocess input) = true ->
  exists w' out table address log,
    assemble packFirstWord input w = (w', Ok out)
    /\ console w' = console w ++ log
    /\ In (console_warn ["label redeclared:"; name]) log
    /\ heap w' !! labels (debug out) = Some (MapObject table)
    /\ table !! name = Some address
    /\ (forOf (pass1Body (labels (debug out))) (pre ++ labelLine name :: mid) zero
              (withLabels (withCart w))).2 = Ok address.
Proof.
  intros Hsplit Hlast Hok.
  destruct (assemble_succeeds packFirstWord input w Hok)
    as (a1 & final & Ha1 & Hfinal & Hres).
  pose proof (assemble_effect packFirstWord input w) as Heff. cbv zeta in Heff.
  destruct Heff as (_ & _ & _ & _ & Htab & Heff). rewrite Ha1 in Heff.
  destruct Heff as (_ & Hlog & _).
  set (program := preprocess input) in *.
  set (before := pre ++ labelLine name :: mid).
  assert (Hsplit' : program = before ++ labelLine name :: post).
  { rewrite Hsplit. unfold before. now rewrite <- app_assoc. }
  destruct (foldSteps_at step1 before (labelLine name) post zero ∅ a1)
    as (address & t1 & e1 & e3 & Hbefore & Hentries & Htable).
  { rewrite <- Hsplit'. exact Ha1. }
  rewrite <- Hsplit' in Hentries, Htable.
  assert (Hbound : is_Some (t1 !! name)).
  { replace t1 with (foldSteps step1 before zero ∅).1.2 by now rewrite Hbefore.
    apply (pass1_binds_declared before name zero ∅ address);
      [now rewrite Hbefore|].
    unfold declares, before. rewrite existsb_app. cbn [existsb].
    rewrite String.eqb_refl. now rewrite orb_true_r. }
  rewrite step1_label in Hentries, Htable. cbn [fst snd] in Hentries, Htable.
  rewrite bool_decide_eq_true_2 in Hentries by exact Hbound.
  exists (assemble packFirstWord input w).1,
    {| mem := fresh (dom (heap w));
       debug := {| labels := fresh (dom (heap (withCart w)));
                   instructions := final.2 |} |},
    (foldSteps step1 program zero ∅).1.2, address,
    ((foldSteps step1 program zero ∅).2
     ++ (foldSteps (step2 packFirstWord (foldSteps step1 program zero ∅).1.2)
           program (zero, ∅) (Memory.new None)).2).
  cbn [mem debug labels].
  split; [rewrite <- Hres; now destruct (assemble packFirstWord input w)|].
  split; [exact Hlog|].
  split.
  { apply in_or_app. left. rewrite Hentries. apply in_or_app. right. now left. }
  split; [exact Htab|].
  split.
  { rewrite Htable, pass1_untouched by exact Hlast. apply lookup_insert_eq. }
  rewrite pass1_world by apply withLabels_lookup. fold before. now rewrite Hbefore.
Qed.

Lemma label_redeclaration_witness :
  exists w' out table address log,
    assemble (fun opcode _ _ _ => opcode)
             (".a" +:+ String newline ("NOP" +:+ String newline ".a"))
             {| heap := ∅; console := [] |} = (w', Ok out)
    /\ console w' = [] ++ log
    /\ In (console_warn ["label redeclared:"; "a"]) log
    /\ heap w' !! labels (debug out) = Some (MapObject table)
    /\ table !! "a" = Some address
    /\ (forOf (pass1Body (labels (debug out))) ([] ++ labelLine "a" :: ["NOP"]) zero
              (withLabels (withCart {| heap := ∅; console := [] |}))).2 = Ok address.
Proof.
  apply (label_redeclaration (fun opcode _ _ _ => opcode)
           (".a" +:+ String newline ("NOP" +:+ String newline ".a"))
           {| heap := ∅; console := [] |} [] ["NOP"] [] "a").
  - vm_compute. reflexivity.
  - intros [].
  - vm_compute. reflexivity.
Defined.

(** *** Lines that are rejected *)

(** A line that does not stop the first pass. *)
Definition passesFirst (line : string) : bool :=
  if isInstruction line then
    match checkLine line with
    | Ok _ => true
    | Err _ => false
    end
  else true.

Lemma pass1_passes lines : forall address t,
  forallb passesFirst lines = true ->
  exists final, (foldSteps step1 lines address t).1.1 = Ok final.
Proof.
  induction lines as [|line rest IH]; intros address t Hok; [cbn; eauto|].
  cbn [forallb] in Hok. apply andb_true_iff in Hok as [Hline Hrest].
  cbn [foldSteps].
  assert (Hstep : exists a, (step1 line address t).1.1 = Ok a).
  { unfold step1, passesFirst in *.
    destruct (isInstruction line); cbn [fst snd]; [|eauto].
    destruct (checkLine line); [cbn [rmap rbind]; eauto|discriminate]. }
  destruct Hstep as [a Ha].
  destruct (step1 line address t) as [[r t1] e1]. cbn [fst snd] in Ha. subst r.
  destruct (IH a t1 Hrest) as [final Hfinal].
  destruct (foldSteps step1 rest a t1) as [[r t2] e2]. cbn [fst snd] in *. eauto.
Qed.





(** *** Short immediates *)

Definition three : Tryte :=
  [Nought; Nought; Nought; Nought; Nought; Nought; Nought; Plus; Nought].

(** C1, on the code: the immediate 3 of [MOV r0, ooooooo+o] has
    magnitude at most 4, yet the instruction gets [WORD_IMMEDIATE],
    carries the immediate as its second word, and moves the cursor of
    the first pass from 0 to 2; [isShort] holds of no tryte at all. *)
Theorem short_immediate_takes_two_words :
  t2n (word three) = 3
  /\ (forall value, isShort value = false)
  /\ parseLine "MOV r0, ooooooo+o"
     = Ok ("MOV",
           {| opcode := zero;
              addressingMode := WORD_IMMEDIATE;
              x := intToDigits 9 (-4) [];
              y := zero;
              z := Some (ZWord three) |},
           [])
  /\ (forall l w,
        pass1Body l "MOV r0, ooooooo+o" zero w
        = (w, Ok (add (add zero one) one)))
  /\ t2n (word (add (add zero one) one)) = 2.
Proof.
  split; [reflexivity|]. split; [exact isShort_false|].
  split; [vm_compute; reflexivity|]. split; [|vm_compute; reflexivity].
  intros l w. unfold pass1Body. change (isInstruction "MOV r0, ooooooo+o") with true.
  cbv iota. unfold bind, lift, ret.
  replace (parseLine "MOV r0, ooooooo+o")
    with (Ok ("MOV",
              {| opcode := zero; addressingMode := WORD_IMMEDIATE;
                 x := intToDigits 9 (-4) []; y := zero;
                 z := Some (ZWord three) |},
              @nil string)) by (vm_compute; reflexivity).
  cbn [length Nat.ltb Nat.leb z truthy]. now rewrite n2t_1.
Qed.

End AssemblerFacts.


(** * Further properties *)

(** ** Memory: initial contents, overwriting, and what stores preserve *)

Module MemoryMore.
Import Memory ALUFacts MemoryFacts ParserFacts.








(** X1: a fresh memory, whatever [size] was passed, answers every load
    at an in-range address with the zero word. *)
Theorem fresh_memory_loads_zero u size a :
  representable a -> load u (new size) a = Ok zero.
Proof.
  intros Ha. apply t2n_representable in Ha. unfold inRange in Ha.
  unfold load, new, get. cbn [block].
  destruct (Z.leb_spec 0 (t2n a + 9841)); [|lia].
  rewrite lookup_replicate_2; [reflexivity|].
  unfold TRYTE_NUM_VALUES. lia.
Qed.

Lemma fresh_memory_loads_zero_witness :
  load (Err TypeError) (new (Some 3)) (number (-9841)) = Ok zero.
Proof.
  apply (fresh_memory_loads_zero (Err TypeError) (Some 3) (number (-9841))).
  cbn. unfold inRange. lia.
Defined.

(** X2: of two stores to addresses of the same integer value, be they
    words or numbers, only the second shows: the memory is the one the
    second store alone would leave. *)
Theorem store_overwrites m v1 v2 a b :
  t2n a = t2n b -> store (store m v1 a) v2 b = store m v2 b.
Proof.
  intros Hab. unfold store, set. cbn [block]. rewrite Hab.
  destruct (0 <=? t2n b + 9841); [|reflexivity].
  now rewrite list_insert_insert_eq.
Qed.

Lemma store_overwrites_witness :
  store (store (new None) (number 7) (word one)) (number 8) (number 1)
  = store (new None) (number 8) (number 1).
Proof.
  apply (store_overwrites (new None) (number 7) (number 8) (word one) (number 1)).
  reflexivity.
Defined.

(** X3: stores to addresses of different integer values commute, in
    range or not. *)
Theorem store_commutes m v1 v2 a b :
  t2n a <> t2n b ->
  store (store m v1 a) v2 b = store (store m v2 b) v1 a.
Proof.
  intros Hab. unfold store, set. cbn [block].
  destruct (Z.leb_spec 0 (t2n a + 9841)), (Z.leb_spec 0 (t2n b + 9841));
    try reflexivity.
  f_equal. apply list_insert_insert_ne. lia.
Qed.

Lemma store_commutes_witness :
  store (store (new None) (number 7) (number 0)) (number 8) (number 1)
  = store (store (new None) (number 8) (number 1)) (number 7) (number 0).
Proof.
  apply (store_commutes (new None) (number 7) (number 8) (number 0) (number 1)).
  cbn. lia.
Defined.



End MemoryMore.


(** ** Lines and tokens *)

Module TextFacts.
Import Assembler.

(** The character [c] occurs in [s]. *)
Fixpoint hasChar (c : ascii) (s : string) : bool :=
  match s with
  | EmptyString => false
  | String d rest => Ascii.eqb c d || hasChar c rest
  end.

Fixpoint lastChar (s : string) : option ascii :=
  match s with
  | EmptyString => None
  | String c EmptyString => Some c
  | String _ rest => lastChar rest
  end.

Lemma append_cons c s t : String c s +:+ t = String c (s +:+ t).
Proof. reflexivity. Qed.

Lemma append_nil_r s : s +:+ "" = s.
Proof.
  induction s as [|c s IH]; [reflexivity|]. rewrite append_cons. now f_equal.
Qed.

Lemma append_assoc s t u : (s +:+ t) +:+ u = s +:+ (t +:+ u).
Proof.
  induction s as [|c s IH]; [reflexivity|]. rewrite !append_cons. now f_equal.
Qed.

Lemma hasChar_append c s t : hasChar c (s +:+ t) = hasChar c s || hasChar c t.
Proof.
  induction s as [|d s IH]; [reflexivity|]. rewrite append_cons. cbn [hasChar].
  rewrite IH. now rewrite orb_assoc.
Qed.

Lemma length_zero s : Nat.ltb 0 (String.length s) = false -> s = "".
Proof. now destruct s. Qed.

(** *** [parseInstructionParts] *)

Definition noSpace (s : string) : Prop := hasChar " " s = false.
Definition noComma (s : string) : Prop := hasChar "," s = false.

Lemma noSpace_snoc buffer c :
  noSpace buffer -> c <> " "%char -> noSpace (buffer +:+ String c "").
Proof.
  unfold noSpace. intros Hb Hc. rewrite hasChar_append, Hb. cbn [hasChar orb].
  rewrite orb_false_r. apply Ascii.eqb_neq. congruence.
Qed.

Lemma noComma_snoc buffer c :
  noComma buffer -> c <> ","%char -> noComma (buffer +:+ String c "").
Proof.
  unfold noComma. intros Hb Hc. rewrite hasChar_append, Hb. cbn [hasChar orb].
  rewrite orb_false_r. apply Ascii.eqb_neq. congruence.
Qed.

(** What the loop keeps true of the parts pushed so far and of the
    buffer. *)
Definition tokensOk (operands : list string) (buffer : string) : Prop :=
  match operands with
  | [] => noSpace buffer
  | mnemonic :: rest =>
      noSpace mnemonic /\ Forall noComma rest /\ noComma buffer
  end.

Definition headOk (operands : list string) (buffer : string) : Prop :=
  match operands with
  | [] => buffer <> ""
  | mnemonic :: _ => mnemonic <> ""
  end.

Definition someToken (operands : list string) (buffer : string) : Prop :=
  operands <> [] \/ buffer <> "".

Lemma append_char_nonempty buffer c : buffer +:+ String c "" <> "".
Proof. now destruct buffer. Qed.

Lemma loop_tokensOk line : forall operands buffer,
  tokensOk operands buffer ->
  tokensOk (parseInstructionPartsLoop line operands buffer).1
           (parseInstructionPartsLoop line operands buffer).2.
Proof.
  induction line as [|c line IH]; intros operands buffer Hok; [exact Hok|].
  cbn [parseInstructionPartsLoop]. destruct operands as [|mnemonic rest].
  - cbn [length Nat.eqb]. destruct (Ascii.eqb_spec c " ") as [->|Hc].
    + apply IH. cbn [app tokensOk]. repeat split; [exact Hok|constructor].
    + apply IH. cbn [tokensOk] in *. now apply noSpace_snoc.
  - cbn [length Nat.eqb]. destruct Hok as (Hm & Hrest & Hbuffer).
    destruct (Ascii.eqb_spec c ",") as [->|Hc].
    + apply IH. cbn [app tokensOk]. repeat split; [exact Hm| ].
      apply Forall_app. split; [exact Hrest|]. now constructor.
    + apply IH. cbn [tokensOk]. repeat split; [exact Hm|exact Hrest|].
      now apply noComma_snoc.
Qed.

Lemma loop_headOk line : forall operands buffer,
  headOk operands buffer ->
  headOk (parseInstructionPartsLoop line operands buffer).1
         (parseInstructionPartsLoop line operands buffer).2.
Proof.
  induction line as [|c line IH]; intros operands buffer Hok; [exact Hok|].
  cbn [parseInstructionPartsLoop]. destruct operands as [|mnemonic rest].
  - cbn [length Nat.eqb]. destruct (Ascii.eqb c " "); apply IH; cbn;
      [exact Hok|apply append_char_nonempty].
  - cbn [length Nat.eqb]. destruct (Ascii.eqb c ","); apply IH; exact Hok.
Qed.

Lemma loop_someToken line : forall operands buffer,
  someToken operands buffer ->
  someToken (parseInstructionPartsLoop line operands buffer).1
            (parseInstructionPartsLoop line operands buffer).2.
Proof.
  induction line as [|c line IH]; intros operands buffer Hok; [exact Hok|].
  cbn [parseInstructionPartsLoop].
  destruct (Nat.eqb (length operands) 0), (Ascii.eqb c " "), (Ascii.eqb c ",");
    apply IH; unfold someToken;
    first [left; now destruct operands | right; apply append_char_nonempty].
Qed.

Lemma parts_of_loop operands buffer :
  (if Nat.ltb 0 (String.length buffer) then operands ++ [buffer] else operands)
  = match buffer with
    | EmptyString => operands
    | _ => operands ++ [buffer]
    end.
Proof. now destruct buffer. Qed.

Lemma parts_invariant line :
  match parseInstructionParts line with
  | [] => line = ""
  | mnemonic :: operands =>
      noSpace mnemonic
      /\ Forall noComma operands
      /\ (first line <> Some " "%char -> mnemonic <> "")
  end.
Proof.
  unfold parseInstructionParts.
  pose proof (loop_tokensOk line [] "" eq_refl) as Htokens.
  assert (Hsome : line <> "" ->
            someToken (parseInstructionPartsLoop line [] "").1
                      (parseInstructionPartsLoop line [] "").2).
  { destruct line as [|c line]; [congruence|]. intros _.
    cbn [parseInstructionPartsLoop length Nat.eqb].
    destruct (Ascii.eqb c " "); apply loop_someToken; unfold someToken;
      [left; discriminate|right; apply append_char_nonempty]. }
  assert (Hhead : first line <> Some " "%char -> line <> "" ->
            headOk (parseInstructionPartsLoop line [] "").1
                   (parseInstructionPartsLoop line [] "").2).
  { destruct line as [|c line]; [congruence|]. intros Hc _.
    cbn [parseInstructionPartsLoop length Nat.eqb].
    destruct (Ascii.eqb_spec c " ") as [->|_]; [now destruct Hc|].
    apply loop_headOk. cbn. discriminate. }
  destruct (parseInstructionPartsLoop line [] "") as [operands buffer] eqn:Hloop.
  cbn [fst snd] in *. rewrite parts_of_loop.
  destruct operands as [|mnemonic rest], buffer as [|b buffer]; cbn [app].
  - destruct line; [reflexivity|]. destruct Hsome as [H|H]; congruence.
  - cbn [tokensOk] in Htokens. split; [exact Htokens|]. split; [constructor|].
    intros _. discriminate.
  - destruct Htokens as (Hm & Hrest & _). split; [exact Hm|]. split; [exact Hrest|].
    intros Hc. apply Hhead; [exact Hc|]. intros ->. discriminate Hloop.
  - destruct Htokens as (Hm & Hrest & Hbuffer). split; [exact Hm|].
    split; [apply Forall_app; split; [exact Hrest|now constructor]|].
    intros Hc. apply Hhead; [exact Hc|]. intros ->. discriminate Hloop.
Qed.

(** X5: [parseInstructionParts] returns no part only for the empty line.
    Otherwise the first part, the mnemonic, holds no space, and no later
    part, an operand, holds a comma; and the mnemonic is not the empty
    string unless the line starts with a space. *)
Theorem parts_shape line :
  match parseInstructionParts line with
  | [] => line = ""
  | mnemonic :: operands =>
      noSpace mnemonic
      /\ Forall noComma operands
      /\ (first line <> Some " "%char -> mnemonic <> "")
  end.
Proof. exact (parts_invariant line). Qed.

Lemma noSpace_cons c s : noSpace (String c s) -> c <> " "%char /\ noSpace s.
Proof.
  unfold noSpace. cbn [hasChar]. intros H. apply orb_false_iff in H as [Hc Hs].
  split; [|exact Hs]. apply Ascii.eqb_neq in Hc. congruence.
Qed.

Lemma noComma_cons c s : noComma (String c s) -> c <> ","%char /\ noComma s.
Proof.
  unfold noComma. cbn [hasChar]. intros H. apply orb_false_iff in H as [Hc Hs].
  split; [|exact Hs]. apply Ascii.eqb_neq in Hc. congruence.
Qed.

Lemma loop_mnemonic m : forall rest buffer,
  noSpace m ->
  parseInstructionPartsLoop (m +:+ rest) [] buffer
  = parseInstructionPartsLoop rest [] (buffer +:+ m).
Proof.
  induction m as [|c m IH]; intros rest buffer Hm.
  - now rewrite append_nil_r.
  - apply noSpace_cons in Hm as [Hc Hm]. rewrite append_cons.
    cbn [parseInstructionPartsLoop length Nat.eqb].
    destruct (Ascii.eqb_spec c " ") as [->|_]; [congruence|].
    rewrite IH by exact Hm. now rewrite append_assoc.
Qed.

Lemma loop_operand o : forall rest head tail buffer,
  noComma o ->
  parseInstructionPartsLoop (o +:+ rest) (head :: tail) buffer
  = parseInstructionPartsLoop rest (head :: tail) (buffer +:+ o).
Proof.
  induction o as [|c o IH]; intros rest head tail buffer Ho.
  - now rewrite append_nil_r.
  - apply noComma_cons in Ho as [Hc Ho]. rewrite append_cons.
    cbn [parseInstructionPartsLoop length Nat.eqb].
    destruct (Ascii.eqb_spec c ",") as [->|_]; [congruence|].
    rewrite IH by exact Ho. now rewrite append_assoc.
Qed.

Lemma parts_of_operands operands : forall head tail,
  Forall noComma operands ->
  last operands <> Some "" ->
  (let '(pushed, buffer) :=
     parseInstructionPartsLoop (String.concat "," operands) (head :: tail) "" in
   if Nat.ltb 0 (String.length buffer) then pushed ++ [buffer] else pushed)
  = (head :: tail) ++ operands.
Proof.
  induction operands as [|o operands IH]; intros head tail Hall Hlast.
  - cbn. now rewrite app_nil_r.
  - apply Forall_cons in Hall as [Ho Hall]. destruct operands as [|o2 operands].
    + cbn [String.concat]. rewrite <- (append_nil_r o) at 1.
      rewrite loop_operand by exact Ho. cbn [parseInstructionPartsLoop].
      change ("" +:+ o) with o. destruct o; [now destruct Hlast|reflexivity].
    + cbn [String.concat]. rewrite loop_operand by exact Ho.
      change ("" +:+ o) with o. change ("," ++ ?s)%string with (String "," s).
      cbn [parseInstructionPartsLoop length Nat.eqb Ascii.eqb Bool.eqb].
      change ((head :: tail) ++ [o]) with (head :: (tail ++ [o])).
      rewrite IH; [|exact Hall|exact Hlast]. cbn [app]. now rewrite <- app_assoc.
Qed.

(** X6: a mnemonic without a space, a space, and operands without commas
    joined by commas split back into the mnemonic and the operands,
    provided the last operand is not the empty string (a buffer left
    empty at the end of the line is not pushed). *)
Theorem parts_round_trip mnemonic operands :
  noSpace mnemonic ->
  Forall noComma operands ->
  last operands <> Some "" ->
  parseInstructionParts (mnemonic +:+ " " +:+ String.concat "," operands)
  = mnemonic :: operands.
Proof.
  intros Hm Hall Hlast. unfold parseInstructionParts.
  rewrite loop_mnemonic by exact Hm. change ("" +:+ mnemonic) with mnemonic.
  change (" " +:+ ?s) with (String " " s).
  cbn [parseInstructionPartsLoop length Nat.eqb Ascii.eqb Bool.eqb app].
  exact (parts_of_operands operands mnemonic [] Hall Hlast).
Qed.

Lemma parts_round_trip_witness :
  parseInstructionParts ("MOV" +:+ " " +:+ String.concat "," ["r0"; ""; " +o"])
  = "MOV" :: ["r0"; ""; " +o"].
Proof.
  apply (parts_round_trip "MOV" ["r0"; ""; " +o"]).
  - reflexivity.
  - repeat constructor.
  - discriminate.
Defined.

(** *** [preprocess] *)

Lemma splitLines_nonempty s : splitLines s <> [].
Proof.
  destruct s as [|c s]; [discriminate|]. cbn [splitLines].
  destruct (Ascii.eqb c newline); [discriminate|].
  now destruct (splitLines s).
Qed.

Lemma splitLines_app a b :
  splitLines (a +:+ String newline b) = splitLines a ++ splitLines b.
Proof.
  induction a as [|c a IH].
  - change ("" +:+ String newline b) with (String newline b).
    cbn [splitLines]. now rewrite Ascii.eqb_refl.
  - rewrite append_cons. cbn [splitLines]. rewrite IH.
    destruct (Ascii.eqb c newline); [reflexivity|].
    pose proof (splitLines_nonempty a) as Hne.
    now destruct (splitLines a).
Qed.

Lemma splitLines_chars c s :
  hasChar c s = false -> Forall (fun l => hasChar c l = false) (splitLines s).
Proof.
  induction s as [|d s IH]; intros Hs; [now repeat constructor|].
  cbn [hasChar] in Hs. apply orb_false_iff in Hs as [Hd Hs].
  specialize (IH Hs). cbn [splitLines].
  destruct (Ascii.eqb d newline); [now constructor|].
  destruct (splitLines s) as [|head tail].
  - repeat constructor. cbn [hasChar]. now rewrite Hd.
  - apply Forall_cons in IH as [Hhead Htail]. constructor; [|exact Htail].
    cbn [hasChar]. now rewrite Hd, Hhead.
Qed.

Lemma splitLines_noNewline s :
  Forall (fun l => hasChar newline l = false) (splitLines s).
Proof.
  induction s as [|d s IH]; [now repeat constructor|]. cbn [splitLines].
  destruct (Ascii.eqb d newline) eqn:Hd; [now constructor|].
  rewrite Ascii.eqb_sym in Hd.
  destruct (splitLines s) as [|head tail].
  - repeat constructor. cbn [hasChar]. now rewrite Hd.
  - apply Forall_cons in IH as [Hhead Htail]. constructor; [|exact Htail].
    cbn [hasChar]. now rewrite Hd, Hhead.
Qed.

Lemma removeComment_chars c l :
  hasChar c l = false -> hasChar c (removeComment l) = false.
Proof.
  induction l as [|d l IH]; intros Hl; [reflexivity|].
  cbn [hasChar] in Hl. apply orb_false_iff in Hl as [Hd Hl]. cbn [removeComment].
  destruct (Ascii.eqb d ";" && negb (hasLineTerminator l)); [reflexivity|].
  cbn [hasChar]. now rewrite Hd, IH.
Qed.

Lemma trimStart_chars c s :
  hasChar c s = false -> hasChar c (trimStart s) = false.
Proof.
  induction s as [|d s IH]; intros Hs; [reflexivity|]. cbn [trimStart].
  destruct (isWhiteSpace d); [|exact Hs].
  cbn [hasChar] in Hs. apply orb_false_iff in Hs as [_ Hs]. now apply IH.
Qed.

Lemma trimEnd_chars c s :
  hasChar c s = false -> hasChar c (trimEnd s) = false.
Proof.
  induction s as [|d s IH]; intros Hs; [reflexivity|].
  cbn [hasChar] in Hs. apply orb_false_iff in Hs as [Hd Hs]. specialize (IH Hs).
  cbn [trimEnd]. destruct (trimEnd s) as [|k kept].
  - destruct (isWhiteSpace d); [reflexivity|]. cbn [hasChar]. now rewrite Hd.
  - cbn [hasChar] in *. now rewrite Hd, IH.
Qed.

Lemma trim_chars c s : hasChar c s = false -> hasChar c (trim s) = false.
Proof. intros Hs. unfold trim. now apply trimEnd_chars, trimStart_chars. Qed.

Lemma eqb_whiteSpace c d :
  isWhiteSpace c = false -> isWhiteSpace d = true -> Ascii.eqb c d = false.
Proof.
  intros Hc Hd. apply Ascii.eqb_neq. intros ->. congruence.
Qed.

(** [trim] removes white space only. *)
Lemma trimStart_keeps c s :
  isWhiteSpace c = false -> hasChar c (trimStart s) = hasChar c s.
Proof.
  intros Hc. induction s as [|d s IH]; [reflexivity|]. cbn [trimStart].
  destruct (isWhiteSpace d) eqn:Hd; [|reflexivity].
  cbn [hasChar]. now rewrite IH, (eqb_whiteSpace c d Hc Hd).
Qed.

Lemma trimEnd_keeps c s :
  isWhiteSpace c = false -> hasChar c (trimEnd s) = hasChar c s.
Proof.
  intros Hc. induction s as [|d s IH]; [reflexivity|].
  cbn [trimEnd]. destruct (trimEnd s) as [|k kept].
  - cbn [hasChar] in *. rewrite <- IH.
    destruct (isWhiteSpace d) eqn:Hd; [|reflexivity].
    cbn [hasChar]. now rewrite (eqb_whiteSpace c d Hc Hd).
  - cbn [hasChar] in *. now rewrite IH.
Qed.

Lemma trim_keeps c s : isWhiteSpace c = false -> hasChar c (trim s) = hasChar c s.
Proof.
  intros Hc. unfold trim. now rewrite trimEnd_keeps, trimStart_keeps.
Qed.

Lemma first_trimStart s c :
  first (trimStart s) = Some c -> isWhiteSpace c = false.
Proof.
  induction s as [|d s IH]; [discriminate|]. cbn [trimStart].
  destruct (isWhiteSpace d) eqn:Hd; [exact IH|]. now intros [= <-].
Qed.

Lemma first_trimEnd s c : first (trimEnd s) = Some c -> first s = Some c.
Proof.
  destruct s as [|d s]; [discriminate|]. cbn [trimEnd].
  destruct (trimEnd s); [|now intros [= <-]].
  destruct (isWhiteSpace d); [discriminate|now intros [= <-]].
Qed.

Lemma lastChar_trimEnd s c :
  lastChar (trimEnd s) = Some c -> isWhiteSpace c = false.
Proof.
  induction s as [|d s IH]; [discriminate|]. cbn [trimEnd].
  destruct (trimEnd s) as [|k kept].
  - destruct (isWhiteSpace d) eqn:Hd; [discriminate|]. now intros [= <-].
  - exact IH.
Qed.

Lemma elem_of_preprocess input line :
  line ∈ preprocess input ->
  line <> "" /\ exists raw, raw ∈ splitLines input /\ line = trim (removeComment raw).
Proof.
  unfold preprocess. rewrite list_elem_of_filter. intros [Hlen Hin].
  split; [intros ->; cbn in Hlen; lia|].
  apply list_elem_of_In, in_map_iff in Hin as (raw & <- & Hraw).
  exists raw. split; [now apply list_elem_of_In|reflexivity].
Qed.

(** X7: every line the passes run over is non-empty, neither starts nor
    ends with white space and holds no newline; so it always has a
    mnemonic, which is not the empty string: no pass ever calls
    [toUpperCase] on [undefined]. *)
Theorem preprocessed_line input line :
  line ∈ preprocess input ->
  line <> ""
  /\ (forall c, first line = Some c -> isWhiteSpace c = false)
  /\ (forall c, lastChar line = Some c -> isWhiteSpace c = false)
  /\ hasChar newline line = false
  /\ exists mnemonic operands,
      parseInstructionParts line = mnemonic :: operands
      /\ mnemonic <> "" /\ noSpace mnemonic /\ Forall noComma operands.
Proof.
  intros Hin. apply elem_of_preprocess in Hin as (Hne & raw & Hraw & ->).
  assert (Hfirst : forall c, first (trim (removeComment raw)) = Some c ->
                     isWhiteSpace c = false).
  { intros c Hc. unfold trim in Hc. now apply first_trimEnd, first_trimStart in Hc. }
  split; [exact Hne|]. split; [exact Hfirst|].
  split; [intros c; apply lastChar_trimEnd|].
  split.
  { apply trim_chars, removeComment_chars.
    pose proof (splitLines_noNewline input) as Hall.
    rewrite Forall_forall in Hall. now apply Hall. }
  pose proof (parts_invariant (trim (removeComment raw))) as Hparts.
  destruct (parseInstructionParts (trim (removeComment raw))) as [|mnemonic operands];
    [contradiction|].
  destruct Hparts as (Hm & Hops & Hhead). exists mnemonic, operands.
  split; [reflexivity|]. split; [|split; assumption].
  apply Hhead. intros Hspace. now specialize (Hfirst _ Hspace).
Qed.

Lemma preprocessed_line_witness :
  "MOV r0, r1" <> ""
  /\ (forall c, first "MOV r0, r1" = Some c -> isWhiteSpace c = false)
  /\ (forall c, lastChar "MOV r0, r1" = Some c -> isWhiteSpace c = false)
  /\ hasChar newline "MOV r0, r1" = false
  /\ exists mnemonic operands,
      parseInstructionParts "MOV r0, r1" = mnemonic :: operands
      /\ mnemonic <> "" /\ noSpace mnemonic /\ Forall noComma operands.
Proof.
  apply (preprocessed_line ("  MOV r0, r1 ; copy" +:+ String newline "")).
  vm_compute. left.
Defined.

Lemma preprocess_app_lemma a b :
  preprocess (a +:+ String newline b) = preprocess a ++ preprocess b.
Proof.
  unfold preprocess. now rewrite splitLines_app, map_app, filter_app.
Qed.

(** X8: the lines of two texts joined by a newline are the lines of the
    first followed by the lines of the second. *)
Theorem preprocess_app a b :
  preprocess (a +:+ String newline b) = preprocess a ++ preprocess b.
Proof. exact (preprocess_app_lemma a b). Qed.

Lemma hasLineTerminator_chars l :
  hasChar newline l = false -> hasChar carriageReturn l = false ->
  hasLineTerminator l = false.
Proof.
  induction l as [|c l IH]; [reflexivity|]. cbn [hasChar hasLineTerminator].
  intros Hn Hr. apply orb_false_iff in Hn as [Hn1 Hn2].
  apply orb_false_iff in Hr as [Hr1 Hr2]. rewrite IH by assumption.
  unfold isLineTerminator. rewrite (Ascii.eqb_sym c), Hn1, (Ascii.eqb_sym c), Hr1.
  reflexivity.
Qed.

Lemma removeComment_noSemicolon l :
  hasLineTerminator l = false -> hasChar ";" (removeComment l) = false.
Proof.
  induction l as [|c l IH]; [reflexivity|]. cbn [hasLineTerminator].
  intros H. apply orb_false_iff in H as [_ Hl]. cbn [removeComment].
  rewrite Hl. cbn [negb]. rewrite andb_true_r.
  destruct (Ascii.eqb c ";") eqn:Hc; [reflexivity|].
  cbn [hasChar]. rewrite (Ascii.eqb_sym ";" c), Hc. now apply IH.
Qed.

Lemma removeComment_prefix l :
  exists rest, l = removeComment l +:+ rest
               /\ (rest = "" \/ first rest = Some ";"%char).
Proof.
  induction l as [|c l (rest & IH & Hrest)]; [exists ""; now split; [|left]|].
  cbn [removeComment].
  destruct (Ascii.eqb_spec c ";") as [->|_]; cbn [andb].
  - destruct (negb (hasLineTerminator l)).
    + exists (String ";" l). split; [reflexivity|now right].
    + exists rest. rewrite append_cons. split; [now f_equal|exact Hrest].
  - exists rest. rewrite append_cons. split; [now f_equal|exact Hrest].
Qed.

(** X9: in a text without carriage returns, [replace(/;.*$/, '')] cuts
    every line at its first semicolon: what is left of a line is a prefix
    of it with no semicolon in it, followed in the line by nothing or by
    a semicolon; so no line the passes run over holds a semicolon. *)
Theorem comments_removed input :
  hasChar carriageReturn input = false ->
  (forall raw, raw ∈ splitLines input ->
     hasChar ";" (removeComment raw) = false
     /\ exists rest, raw = removeComment raw +:+ rest
                     /\ (rest = "" \/ first rest = Some ";"%char))
  /\ (forall line, line ∈ preprocess input -> hasChar ";" line = false).
Proof.
  intros Hcr.
  assert (Hraw : forall raw, raw ∈ splitLines input ->
                   hasChar ";" (removeComment raw) = false).
  { intros raw Hin. apply removeComment_noSemicolon, hasLineTerminator_chars.
    - pose proof (splitLines_noNewline input) as Hall.
      rewrite Forall_forall in Hall. now apply Hall.
    - pose proof (splitLines_chars _ _ Hcr) as Hall.
      rewrite Forall_forall in Hall. now apply Hall. }
  split.
  - intros raw Hin. split; [now apply Hraw|apply removeComment_prefix].
  - intros line Hin. apply elem_of_preprocess in Hin as (_ & raw & Hin & ->).
    now apply trim_chars, Hraw.
Qed.

Lemma comments_removed_witness :
  (forall raw, raw ∈ splitLines ("NOP ; one; two" +:+ String newline ".end;") ->
     hasChar ";" (removeComment raw) = false
     /\ exists rest, raw = removeComment raw +:+ rest
                     /\ (rest = "" \/ first rest = Some ";"%char))
  /\ (forall line,
        line ∈ preprocess ("NOP ; one; two" +:+ String newline ".end;") ->
        hasChar ";" line = false).
Proof.
  apply (comments_removed ("NOP ; one; two" +:+ String newline ".end;")).
  reflexivity.
Defined.

Lemma removeComment_before_terminator s c :
  isLineTerminator c = true ->
  removeComment (s +:+ String c "") = s +:+ String c "".
Proof.
  intros Hc. induction s as [|d s IH].
  - change ("" +:+ String c "") with (String c ""). cbn [removeComment].
    destruct (Ascii.eqb_spec c ";") as [->|_]; [discriminate Hc|reflexivity].
  - rewrite append_cons. cbn [removeComment]. rewrite IH.
    assert (Hlt : hasLineTerminator (s +:+ String c "") = true).
    { clear IH. induction s as [|e s IHs].
      - change ("" +:+ String c "") with (String c ""). cbn [hasLineTerminator].
        now rewrite Hc.
      - rewrite append_cons. cbn [hasLineTerminator]. rewrite IHs.
        apply orb_true_r. }
    rewrite Hlt. cbn [negb]. now rewrite andb_false_r.
Qed.

(** X10: the regular expression's [$] stands for the end of the string
    only, and its [.] stops at a carriage return: a line that ends with a
    carriage return keeps its comment.  A text line with a semicolon,
    ended by carriage return and newline, reaches the passes as one line
    that still holds the semicolon. *)
Theorem carriage_return_keeps_comment s :
  hasChar newline s = false ->
  hasChar ";" s = true ->
  removeComment (s +:+ String carriageReturn "") = s +:+ String carriageReturn ""
  /\ exists line,
      preprocess (s +:+ String carriageReturn (String newline "")) = [line]
      /\ hasChar ";" line = true.
Proof.
  intros Hnl Hsemi.
  assert (Hkeep : removeComment (s +:+ String carriageReturn "")
                  = s +:+ String carriageReturn "")
    by now apply removeComment_before_terminator.
  split; [exact Hkeep|].
  exists (trim (s +:+ String carriageReturn "")).
  assert (Hhas : hasChar ";" (trim (s +:+ String carriageReturn "")) = true).
  { rewrite trim_keeps by reflexivity. rewrite hasChar_append, Hsemi. reflexivity. }
  split; [|exact Hhas].
  replace (s +:+ String carriageReturn (String newline ""))
    with ((s +:+ String carriageReturn "") +:+ String newline "")
    by now rewrite append_assoc.
  rewrite preprocess_app_lemma. unfold preprocess at 2.
  change (splitLines "") with [""]. cbn [map removeComment].
  change (trim "") with "". rewrite filter_cons_False by (cbn; lia).
  rewrite filter_nil, app_nil_r.
  unfold preprocess.
  assert (Hsplit : splitLines (s +:+ String carriageReturn "")
                   = [s +:+ String carriageReturn ""]).
  { clear Hkeep Hhas Hsemi. induction s as [|c s IH].
    - reflexivity.
    - cbn [hasChar] in Hnl. apply orb_false_iff in Hnl as [Hc Hnl].
      rewrite append_cons. cbn [splitLines]. rewrite Ascii.eqb_sym, Hc.
      now rewrite (IH Hnl). }
  rewrite Hsplit. cbn [map]. rewrite Hkeep.
  rewrite filter_cons_True; [now rewrite filter_nil|].
  destruct (trim (s +:+ String carriageReturn "")); [discriminate Hhas|cbn; lia].
Qed.

Lemma carriage_return_keeps_comment_witness :
  removeComment ("MOV r0, r1 ; copy" +:+ String carriageReturn "")
  = "MOV r0, r1 ; copy" +:+ String carriageReturn ""
  /\ exists line,
      preprocess ("MOV r0, r1 ; copy" +:+ String carriageReturn (String newline ""))
      = [line]
      /\ hasChar ";" line = true.
Proof.
  apply (carriage_return_keeps_comment "MOV r0, r1 ; copy"); reflexivity.
Defined.

End TextFacts.


(** ** Operands and instructions *)

Module ParserMore.
Import ALUFacts ParserFacts.

(** The names [parseRegisterOperand] knows, with the integers of their
    selectors. *)
Definition registerTable : list (string * Z) :=
  [("r0", -4); ("r1", -3); ("r2", -2); ("r3", -1); ("r4", 0);
   ("r5", 1); ("r6", 2); ("ra", 3); ("sp", 4)].

Lemma missing_false o : o <> "" -> missing (Some o) = false.
Proof. now destruct o. Qed.

Lemma missing_some operand :
  missing operand = false -> exists o, operand = Some o /\ o <> "".
Proof.
  destruct operand as [[|c o]|]; try discriminate. intros _.
  eexists. split; [reflexivity|discriminate].
Qed.

Lemma word_of_value r k :
  wellFormed r -> t2n (word r) = k -> n2t k = Ok r.
Proof. intros Hr <-. now apply n2t_wordToInt. Qed.

Lemma n2t_wellFormed k r : n2t k = Ok r -> wellFormed r.
Proof.
  unfold n2t. destruct ((-9841 <=? k) && (k <=? 9841)); [|discriminate].
  intros H. assert (Hr : r = intToDigits 9 k []) by congruence.
  rewrite Hr. exact (length_intToDigits 9 k []).
Qed.

(** X11: [parseRegisterOperand] never throws, and it returns a register
    exactly for an operand that, trimmed and lower-cased, is one of the
    nine names r0..r6, ra, sp; the selector is the word of the name's
    number, from -4 for r0 to 4 for sp.  So two operands get the same
    selector only when they name the same register. *)
Theorem register_table operand :
  (exists result, parseRegisterOperand operand = Ok result)
  /\ forall r,
      parseRegisterOperand operand = Ok (Some r)
      <-> (wellFormed r
           /\ exists o, operand = Some o /\ o <> ""
                /\ In (toLowerCase (trim o), t2n (word r)) registerTable).
Proof.
  split.
  { destruct (parseRegisterOperand_total operand) as (result & H & _). eauto. }
  intros r. split.
  - unfold parseRegisterOperand.
    destruct (missing operand) eqn:Hmissing; [discriminate|].
    destruct (missing_some _ Hmissing) as (o & -> & Ho).
    change (default "" (Some o)) with o. cbv zeta.
    repeat match goal with
    | |- context [String.eqb (toLowerCase (trim o)) ?s] =>
        destruct (String.eqb_spec (toLowerCase (trim o)) s) as [Heq|_];
        [intros H; unfold rmap in H;
         match type of H with context [n2t ?k] =>
           destruct (n2t k) as [w|] eqn:Hw; [|discriminate H] end;
         cbn [rbind] in H; injection H as <-;
         split; [now apply n2t_wellFormed in Hw|];
         exists o; split; [reflexivity|]; split; [exact Ho|];
         apply n2t_value in Hw; rewrite Hw, Heq; cbn; tauto|]
    end.
    discriminate.
  - intros (Hr & o & -> & Ho & Hin). unfold parseRegisterOperand.
    rewrite (missing_false o Ho). change (default "" (Some o)) with o. cbv zeta.
    cbn in Hin.
    repeat (destruct Hin as [Hin'|Hin];
      [injection Hin' as <- Hk;
       cbn [String.eqb Ascii.eqb Bool.eqb];
       now rewrite (word_of_value r _ Hr (eq_sym Hk))|]).
    destruct Hin.
Qed.

Lemma length_toLowerCase s : String.length (toLowerCase s) = String.length s.
Proof.
  unfold toLowerCase. induction s as [|c s IH]; [reflexivity|].
  cbn [mapChars String.length]. now rewrite IH.
Qed.

Lemma length_stringToTrits s w :
  stringToTrits s = Some w -> length w = String.length s.
Proof.
  revert w. induction s as [|c s IH]; intros w; [now intros [= <-]|].
  cbn [stringToTrits]. destruct (charToTrit c); [|discriminate].
  destruct (stringToTrits s) as [ds|]; [|discriminate].
  intros [= <-]. cbn [length String.length]. now rewrite (IH ds eq_refl).
Qed.

Lemma s2t_length s w : s2t s = Ok w -> String.length s = 9%nat /\ wellFormed w.
Proof.
  unfold s2t. destruct (Nat.eqb_spec (String.length s) 9) as [Hlen|]; [|discriminate].
  destruct (stringToTrits s) as [ds|] eqn:Hds; [|discriminate].
  intros [= <-]. split; [exact Hlen|].
  unfold wellFormed. now rewrite (length_stringToTrits _ _ Hds).
Qed.

(** An immediate has nine characters, a register name two. *)
Lemma immediate_not_register operand w :
  parseImmediateOperand operand = Some w ->
  parseRegisterOperand operand = Ok None.
Proof.
  unfold parseImmediateOperand, parseRegisterOperand.
  destruct (missing operand); [discriminate|].
  destruct (s2t (trim (default "" operand))) as [w'|] eqn:Hs; [|discriminate].
  intros _. apply s2t_length in Hs as [Hlen _].
  repeat match goal with
  | |- context [String.eqb (toLowerCase ?t) ?s] =>
      destruct (String.eqb_spec (toLowerCase t) s) as [Heq|_];
      [apply (f_equal String.length) in Heq;
       rewrite length_toLowerCase, Hlen in Heq; discriminate Heq|]
  end.
  reflexivity.
Qed.

(** X12: no operand is both an immediate and a register.  So
    [parseImmRegOperand], which tries the immediate first, and
    [unionParseYZ], which tries the register first, sort every operand
    alike: a register gives [REGISTER_REGISTER] with the register as [y],
    an immediate gives [WORD_IMMEDIATE] with the immediate as second
    word, and what [parseImmRegOperand] rejects [unionParseYZ] rejects
    when labels are not allowed. *)
Theorem operand_classes operand partial :
  match parseImmRegOperand operand with
  | Ok (Some (ImmRegImmediate w)) =>
      parseImmediateOperand operand = Some w
      /\ parseRegisterOperand operand = Ok None
      /\ unionParseYZ partial operand false
         = Ok (Some {| opcode := partialOpcode partial;
                       addressingMode := WORD_IMMEDIATE;
                       x := partialX partial;
                       y := zero;
                       z := Some (ZWord w) |})
  | Ok (Some (ImmRegRegister r)) =>
      parseImmediateOperand operand = None
      /\ parseRegisterOperand operand = Ok (Some r)
      /\ unionParseYZ partial operand false
         = Ok (Some {| opcode := partialOpcode partial;
                       addressingMode := REGISTER_REGISTER;
                       x := partialX partial;
                       y := r;
                       z := None |})
  | Ok None =>
      parseImmediateOperand operand = None
      /\ parseRegisterOperand operand = Ok None
      /\ unionParseYZ partial operand false = Ok None
  | Err _ => False
  end.
Proof.
  unfold parseImmRegOperand, unionParseYZ.
  destruct (parseImmediateOperand operand) as [w|] eqn:Himm.
  - rewrite (immediate_not_register _ _ Himm). cbn [rbind].
    rewrite isShort_false, n2t_0. cbn [rbind]. now repeat split.
  - destruct (parseRegisterOperand_total operand) as (result & -> & _).
    cbn [rbind]. destruct result as [r|]; now repeat split.
Qed.

(** The number of operands an operation takes. *)
Definition arity (op : string) : nat :=
  if String.eqb op "NOP" then 0
  else if String.eqb op "JMP" then 1
  else 2.

Lemma unionParseYZ_missing partial allowLabel :
  unionParseYZ partial None allowLabel = Ok None.
Proof. now destruct allowLabel. Qed.

Lemma registerThenYZ_consumes k error1 error2 operands i rest :
  registerThenYZ k error1 error2 operands = Ok (i, rest) ->
  exists operand1 operand2, operands = operand1 :: operand2 :: rest.
Proof.
  unfold registerThenYZ. destruct (n2t k) as [op|]; [|discriminate]. cbn [rbind].
  destruct operands as [|operand1 operands]; cbn [shift].
  { change (parseRegisterOperand None) with (@Ok (option Tryte) None).
    discriminate. }
  destruct (parseRegisterOperand_total (Some operand1)) as (r & -> & _).
  cbn [rbind]. destruct r as [register|]; [|discriminate]. cbn [expect rbind].
  destruct operands as [|operand2 operands]; cbn [shift].
  { rewrite unionParseYZ_missing. discriminate. }
  match goal with |- context [unionParseYZ ?p ?o false] =>
    destruct (unionParseYZ_shape p o false) as (parsed & -> & _) end.
  cbn [rbind]. destruct parsed; [|discriminate]. cbn [expect rbind].
  intros [= _ <-]. eauto.
Qed.

Lemma parseInstruction_arity mnemonic operands i rest :
  parseInstruction mnemonic operands = Ok (i, rest) ->
  length operands = (arity (toUpperCase mnemonic) + length rest)%nat
  /\ rest = drop (arity (toUpperCase mnemonic)) operands.
Proof.
  unfold parseInstruction. cbv zeta.
  generalize (toUpperCase mnemonic) as op. intros op.
  destruct (String.eqb_spec op "NOP") as [->|_].
  { cbn. now intros [= _ <-]. }
  repeat match goal with
  | |- context [if String.eqb op ?s then registerThenYZ _ _ _ _ else _] =>
      destruct (String.eqb_spec op s) as [->|_];
      [intros H; apply registerThenYZ_consumes in H as (o1 & o2 & ->);
       cbn; split; [lia|reflexivity]|]
  end.
  destruct (String.eqb_spec op "JMP") as [->|_]; [|discriminate].
  rewrite n2t_0. change (n2t 36) with (Ok (intToDigits 9 36 [])). cbn [rbind].
  destruct operands as [|operand operands]; cbn [shift].
  { rewrite unionParseYZ_missing. discriminate. }
  match goal with |- context [unionParseYZ ?p ?o true] =>
    destruct (unionParseYZ_shape p o true) as (parsed & -> & _) end.
  cbn [rbind]. destruct parsed; [|discriminate]. cbn [expect rbind].
  intros [= _ <-]. cbn. split; [lia|reflexivity].
Qed.

(** X13: when [parseInstruction] returns, it has taken from the front of
    the array exactly the operands of the operation: none for NOP, one
    for JMP, two for every other operation; the array it leaves is the
    rest. *)
Theorem parseInstruction_consumes mnemonic operands i rest :
  parseInstruction mnemonic operands = Ok (i, rest) ->
  length operands = (arity (toUpperCase mnemonic) + length rest)%nat
  /\ rest = drop (arity (toUpperCase mnemonic)) operands.
Proof. exact (parseInstruction_arity mnemonic operands i rest). Qed.

Lemma parseInstruction_consumes_witness :
  length ["r0"; " r1"; " r2"] = (arity (toUpperCase "mov") + length [" r2"])%nat
  /\ [" r2"] = drop (arity (toUpperCase "mov")) ["r0"; " r1"; " r2"].
Proof.
  apply (parseInstruction_consumes "mov" ["r0"; " r1"; " r2"]
           {| opcode := zero; addressingMode := REGISTER_REGISTER;
              x := intToDigits 9 (-4) []; y := intToDigits 9 (-3) [];
              z := None |}).
  vm_compute. reflexivity.
Defined.


(** An operand that reads as a register name, whatever its case and the
    white space around it. *)
Lemma parseRegisterOperand_named o k :
  In (toLowerCase (trim o), k) registerTable ->
  parseRegisterOperand (Some o) = rmap Some (n2t k).
Proof.
  intros Hin. unfold parseRegisterOperand.
  assert (Ho : o <> "") by (intros ->; cbn in Hin; intuition discriminate).
  rewrite (missing_false o Ho). change (default "" (Some o)) with o. cbv zeta.
  cbn in Hin.
  repeat (destruct Hin as [Hin'|Hin];
    [injection Hin' as <- <-; reflexivity|]).
  destruct Hin.
Qed.

(** What [parseInstruction] returns is the fixed NOP, or comes out of
    [unionParseYZ], with labels allowed for JMP only. *)
Definition nop : InstructionLabeled :=
  {| opcode := zero; addressingMode := REGISTER_REGISTER;
     x := zero; y := zero; z := None |}.







Lemma parseImmRegOperand_none operand :
  parseImmRegOperand operand = Ok None ->
  parseImmediateOperand operand = None /\ parseRegisterOperand operand = Ok None.
Proof.
  unfold parseImmRegOperand.
  destruct (parseImmediateOperand operand); [discriminate|].
  destruct (parseRegisterOperand_total operand) as (r & -> & _). cbn [rbind].
  now destruct r.
Qed.

Lemma unionParseYZ_rejects partial operand :
  parseImmRegOperand operand = Ok None ->
  unionParseYZ partial operand false = Ok None.
Proof.
  intros H. apply parseImmRegOperand_none in H as [Himm Hreg].
  unfold unionParseYZ. now rewrite Hreg, Himm.
Qed.

Lemma substr1_first s :
  first s = Some "."%char -> s = String "." (substr1 s).
Proof. destruct s as [|c s]; [discriminate|]. now intros [= ->]. Qed.

(** X15: the other operand errors.  An operation that takes a register
    first, given a register and then an operand that is neither a register
    nor an immediate (a label, for one), is rejected with a message that
    starts with the operation and [operand 2].  JMP is rejected with its
    own message when its operand is missing, or is neither a register nor
    an immediate nor a dot followed by a name that is not empty. *)
Theorem operand_rejected mnemonic :
  (In (toUpperCase mnemonic) twoOperand ->
   forall operand1 r rest,
     parseRegisterOperand (Some operand1) = Ok (Some r) ->
     parseImmRegOperand (shift rest).1 = Ok None ->
     exists tail,
       parseInstruction mnemonic (operand1 :: rest)
       = Err (Error (toUpperCase mnemonic +:+ ": operand 2" +:+ tail)))
  /\ (toUpperCase mnemonic = "JMP" ->
      parseInstruction mnemonic []
      = Err (Error "JMP: operand must be a register or immediate address")
      /\ forall operand rest,
          parseImmRegOperand (Some operand) = Ok None ->
          (forall name, trim operand = String "." name -> name = "") ->
          parseInstruction mnemonic (operand :: rest)
          = Err (Error "JMP: operand must be a register or immediate address")).
Proof.
  split.
  - intros Hin operand1 r rest Hreg Hnone.
    unfold parseInstruction, twoOperand in *. cbv zeta. cbn in Hin.
    repeat (destruct Hin as [<-|Hin];
      [cbn [String.eqb Ascii.eqb Bool.eqb]; unfold registerThenYZ;
       match goal with |- context [n2t ?k] =>
         change (n2t k) with (Ok (intToDigits 9 k [])) end;
       cbn [rbind shift]; rewrite Hreg; cbn [rbind expect];
       destruct (shift rest) as [operand2 rest2]; cbn [fst] in Hnone;
       rewrite (unionParseYZ_rejects _ _ Hnone); cbn [rbind expect];
       eexists; cbn; reflexivity|]).
    destruct Hin.
  - intros Hjmp. unfold parseInstruction. cbv zeta. rewrite Hjmp.
    cbn [String.eqb Ascii.eqb Bool.eqb]. rewrite n2t_0.
    change (n2t 36) with (Ok (intToDigits 9 36 [])). cbn [rbind shift].
    split; [now rewrite unionParseYZ_missing|].
    intros operand rest Hnone Hlabel.
    apply parseImmRegOperand_none in Hnone as [Himm Hreg].
    unfold unionParseYZ. rewrite Hreg. cbn [rbind]. rewrite Himm. cbv zeta.
    assert (Ht : truthy (parseAddressOperand (Some operand)) = false).
    { unfold parseAddressOperand, parseImmediateOperand in *.
      destruct (missing (Some operand)); [reflexivity|].
      change (default "" (Some operand)) with operand in *. cbv zeta in *.
      case_bool_decide as Hdot.
      - apply substr1_first in Hdot. now rewrite (Hlabel _ Hdot).
      - now destruct (s2t (trim operand)). }
    now rewrite Ht.
Qed.

Lemma operand_rejected_witness :
  (exists tail,
      parseInstruction "sta" ["SP"; " .data"]
      = Err (Error (toUpperCase "sta" +:+ ": operand 2" +:+ tail)))
  /\ parseInstruction "jmp" [" . "; "x"]
     = Err (Error "JMP: operand must be a register or immediate address").
Proof.
  split.
  - apply (proj1 (operand_rejected "sta")) with (r := intToDigits 9 4 []).
    + vm_compute. tauto.
    + vm_compute. reflexivity.
    + vm_compute. reflexivity.
  - apply (proj2 (operand_rejected "jmp")).
    + vm_compute. reflexivity.
    + vm_compute. reflexivity.
    + vm_compute. now intros name [= <-].
Defined.

(** X16: NOP is the instruction MOV r4, r4, as the comment in the source
    has it: whatever the case of the mnemonics, and the case of the
    register names and the white space around them, the two parse to the
    same instruction (and leave the same operands). *)
Theorem nop_is_mov_r4_r4 mnemonic1 mnemonic2 operand1 operand2 rest :
  toUpperCase mnemonic1 = "NOP" ->
  toUpperCase mnemonic2 = "MOV" ->
  toLowerCase (trim operand1) = "r4" ->
  toLowerCase (trim operand2) = "r4" ->
  parseInstruction mnemonic2 (operand1 :: operand2 :: rest)
  = parseInstruction mnemonic1 rest.
Proof.
  intros Hnop Hmov H1 H2. unfold parseInstruction. cbv zeta. rewrite Hnop, Hmov.
  cbn [String.eqb Ascii.eqb Bool.eqb]. unfold registerThenYZ, unionParseYZ.
  rewrite n2t_0. cbn [rbind shift].
  rewrite (parseRegisterOperand_named operand1 0)
    by (rewrite H1; cbn; tauto).
  rewrite (parseRegisterOperand_named operand2 0)
    by (rewrite H2; cbn; tauto).
  rewrite n2t_0. reflexivity.
Qed.

Lemma nop_is_mov_r4_r4_witness :
  parseInstruction "mov" ["R4"; "  r4 "; "x"] = parseInstruction "Nop" ["x"].
Proof.
  apply (nop_is_mov_r4_r4 "Nop" "mov" "R4" "  r4 " ["x"]); reflexivity.
Defined.

End ParserMore.


(** ** Whole programs *)

Module AssemblerMore.
Import ALUFacts ParserFacts HeapFacts AssemblerFacts ParserMore Assembler.

(** A call that returns has run both loops to their ends. *)
Lemma assemble_returns packFirstWord input w w' out :
  assemble packFirstWord input w = (w', Ok out) ->
  exists a final,
    (foldSteps step1 (preprocess input) zero ∅).1.1 = Ok a
    /\ (foldSteps (step2 packFirstWord
                    (foldSteps step1 (preprocess input) zero ∅).1.2)
                 (preprocess input) (zero, ∅) (Memory.new None)).1.1 = Ok final
    /\ out = {| mem := fresh (dom (heap w));
                debug := {| labels := fresh (dom (heap (withCart w)));
                            instructions := final.2 |} |}.
Proof.
  intros Hcall. pose proof (assemble_run packFirstWord input w) as Hrun.
  cbv zeta in Hrun. rewrite Hcall in Hrun.
  destruct ((foldSteps step1 (preprocess input) zero ∅).1.1) as [a|e];
    [|discriminate].
  destruct ((foldSteps _ (preprocess input) (zero, ∅) (Memory.new None)).1.1)
    as [final|e]; [|discriminate].
  injection Hrun as _ ->. eauto.
Qed.




(** The call fails with the error of the first line that stops the first
    pass, whatever the reason. *)
Lemma first_check_error packFirstWord input w pre line post e :
  preprocess input = pre ++ line :: post ->
  isInstruction line = true ->
  checkLine line = Err e ->
  (exists e', (assemble packFirstWord input w).2 = Err e')
  /\ (forallb passesFirst pre = true ->
      (assemble packFirstWord input w).2 = Err e).
Proof.
  intros Hsplit Hline Hcheck.
  pose proof (assemble_run packFirstWord input w) as Hrun. cbv zeta in Hrun.
  assert (Hstep : forall a t, (step1 line a t).1.1 = Err e).
  { intros a t. unfold step1. now rewrite Hline, Hcheck. }
  rewrite Hrun, Hsplit, foldSteps_app. split.
  - destruct (foldSteps step1 pre zero ∅) as [[[a|e1] t1] e2]; cbn [fst snd]; [|eauto].
    cbn [foldSteps]. specialize (Hstep a t1).
    destruct (step1 line a t1) as [[r t2] e3]. cbn [fst snd] in Hstep. subst r.
    cbn [fst snd]. eauto.
  - intros Hpre. destruct (pass1_passes pre zero ∅ Hpre) as [a Ha].
    destruct (foldSteps step1 pre zero ∅) as [[r t1] e1]. cbn [fst snd] in Ha.
    subst r. cbn [foldSteps]. specialize (Hstep a t1).
    destruct (step1 line a t1) as [[r t2] e3]. cbn [fst snd] in Hstep. now subst r.
Qed.

(** X18: an instruction line that parses but brings more operands than
    its operation takes stops the call: [assemble] throws, and what it
    throws is [<mnemonic>: too many operands], with the mnemonic as
    written, whenever no earlier line has stopped the first pass. *)
Theorem too_many_operands packFirstWord input w pre line post mnemonic operands i :
  preprocess input = pre ++ line :: post ->
  isInstruction line = true ->
  parseInstructionParts line = mnemonic :: operands ->
  parseInstruction mnemonic operands
  = Ok (i, drop (arity (toUpperCase mnemonic)) operands) ->
  (arity (toUpperCase mnemonic) < length operands)%nat ->
  (exists e, (assemble packFirstWord input w).2 = Err e)
  /\ (forallb passesFirst pre = true ->
      (assemble packFirstWord input w).2
      = Err (Error (mnemonic +:+ ": too many operands"))).
Proof.
  intros Hsplit Hline Hparts Hparse Hmore.
  apply (first_check_error packFirstWord input w pre line post _ Hsplit Hline).
  unfold checkLine, parseLine. rewrite Hparts, Hparse. cbn [rbind].
  rewrite length_drop.
  destruct (Nat.ltb_spec 0 (length operands - arity (toUpperCase mnemonic)));
    [reflexivity|lia].
Qed.

Lemma too_many_operands_witness :
  (exists e,
      (assemble (fun opcode _ _ _ => opcode) "Nop r1"
                {| heap := ∅; console := [] |}).2 = Err e)
  /\ (forallb passesFirst [] = true ->
      (assemble (fun opcode _ _ _ => opcode) "Nop r1"
                {| heap := ∅; console := [] |}).2
      = Err (Error ("Nop" +:+ ": too many operands"))).
Proof.
  apply (too_many_operands (fun opcode _ _ _ => opcode) "Nop r1"
           {| heap := ∅; console := [] |} [] "Nop r1" [] "Nop" ["r1"] nop).
  - vm_compute. reflexivity.
  - reflexivity.
  - vm_compute. reflexivity.
  - vm_compute. reflexivity.
  - vm_compute. lia.
Defined.

(** The label lines of a program, and the two kinds of console entry. *)
Definition labelLines (lines : list string) : list string :=
  List.filter (fun line => negb (isInstruction line)) lines.

Definition isWarning (entry : consoleEntry) : bool :=
  match entry with
  | console_warn _ => true
  | console_debug _ _ => false
  end.

Lemma pass1_warns lines : forall address t,
  forallb isWarning (foldSteps step1 lines address t).2 = true.
Proof.
  induction lines as [|line rest IH]; intros address t; [reflexivity|].
  cbn [foldSteps].
  assert (Hstep : forallb isWarning (step1 line address t).2 = true).
  { unfold step1. destruct (isInstruction line); [reflexivity|].
    cbn [snd]. now case_bool_decide. }
  destruct (step1 line address t) as [[[a|e] t1] e1]; cbn [snd] in Hstep;
    [|exact Hstep].
  specialize (IH a t1). destruct (foldSteps step1 rest a t1) as [[r t2] e2].
  cbn [snd] in *. rewrite forallb_app, Hstep, IH. reflexivity.
Qed.

Lemma pass2_debugs packFirstWord table lines : forall state m,
  forallb (fun entry => negb (isWarning entry))
          (foldSteps (step2 packFirstWord table) lines state m).2 = true.
Proof.
  induction lines as [|line rest IH]; intros state m; [reflexivity|].
  cbn [foldSteps].
  assert (Hstep : forallb (fun entry => negb (isWarning entry))
                          (step2 packFirstWord table line state m).2 = true).
  { unfold step2. destruct (isInstruction line); [|reflexivity].
    destruct (parseLine line) as [[[mnemonic i] operands]|e]; [|reflexivity].
    destruct (assembleInstruction packFirstWord i table) as [[data0 data1]|e];
      [|reflexivity].
    now destruct data1. }
  destruct (step2 packFirstWord table line state m) as [[[s1|e] m1] e1];
    cbn [snd] in Hstep; [|exact Hstep].
  specialize (IH s1 m1).
  destruct (foldSteps (step2 packFirstWord table) rest s1 m1) as [[r m2] e2].
  cbn [snd] in *. rewrite forallb_app, Hstep, IH. reflexivity.
Qed.

(** What a first pass that reaches its end has done to the table: bound
    the names of the label lines, and nothing else; and it has warned
    once for each label line that did not add a name. *)
Lemma pass1_table lines : forall address t final,
  (foldSteps step1 lines address t).1.1 = Ok final ->
  (forall name,
      is_Some ((foldSteps step1 lines address t).1.2 !! name)
      <-> is_Some (t !! name) \/ In (labelLine name) lines)
  /\ (length (foldSteps step1 lines address t).2
       + size (foldSteps step1 lines address t).1.2
      = size t + length (labelLines lines))%nat.
Proof.
  induction lines as [|line rest IH]; intros address t final.
  - intros _. cbn. split; [intros name; tauto|lia].
  - cbn [foldSteps]. unfold labelLines. cbn [List.filter]. fold (labelLines rest).
    assert (Hstep : forall a, (step1 line address t).1.1 = Ok a ->
              (forall name,
                  is_Some ((step1 line address t).1.2 !! name)
                  <-> is_Some (t !! name) \/ labelLine name = line)
              /\ (length (step1 line address t).2
                   + size (step1 line address t).1.2
                  = size t + length (if negb (isInstruction line)
                                     then [line] else []))%nat).
    { intros a _. unfold step1. destruct (isInstruction line) eqn:Hi; cbn [fst snd negb].
      - split; [|cbn; lia]. intros name. split; [tauto|].
        intros [H|H]; [exact H|]. subst line. discriminate Hi.
      - split.
        + intros name. destruct (decide (substr1 line = name)) as [Heq|Hne].
          * rewrite <- Heq, lookup_insert_eq. split; [|eauto].
            intros _. right. symmetry. now apply label_line_form.
          * rewrite lookup_insert_ne by exact Hne. split; [tauto|].
            intros [H|H]; [exact H|]. subst line. now contradiction Hne.
        + case_bool_decide as Hsome.
          * rewrite (map_size_insert_Some _ _ _ Hsome). cbn. lia.
          * rewrite map_size_insert_None; [cbn; lia|].
            now apply eq_None_not_Some. }
    destruct (step1 line address t) as [[[a|e] t1] e1]; cbn [fst snd]; [|discriminate].
    destruct (Hstep a eq_refl) as [Hdom Hcount]. cbn [fst snd] in Hdom, Hcount.
    specialize (IH a t1). destruct (foldSteps step1 rest a t1) as [[r t2] e2].
    cbn [fst snd] in *. intros Hr. destruct (IH final Hr) as [IHdom IHcount].
    split.
    + intros name. rewrite IHdom, Hdom. cbn [In]. split.
      * intros [[H|H]|H]; [tauto| |tauto]. right. left. now symmetry.
      * intros [H|[H|H]]; [tauto| |tauto]. left. right. now symmetry.
    + rewrite length_app.
      destruct (negb (isInstruction line)); cbn [length] in *; lia.
Qed.

(** X19: when [assemble] returns, the label table it returns binds
    exactly the names of the program's label lines; the console has
    received the warnings of the first pass, then the debug lines of the
    second and nothing else; and the label lines are as many as the
    warnings and the names of the table together: every label line
    either adds a name or is warned about. *)
Theorem label_table packFirstWord input w w' out :
  assemble packFirstWord input w = (w', Ok out) ->
  exists table warnings debugs,
    heap w' !! labels (debug out) = Some (MapObject table)
    /\ (forall name,
           is_Some (table !! name) <-> labelLine name ∈ preprocess input)
    /\ console w' = console w ++ warnings ++ debugs
    /\ forallb isWarning warnings = true
    /\ forallb (fun entry => negb (isWarning entry)) debugs = true
    /\ (length warnings + size table
        = length (labelLines (preprocess input)))%nat.
Proof.
  intros Hcall.
  destruct (assemble_returns _ _ _ _ _ Hcall) as (a & final & Hp1 & Hp2 & ->).
  pose proof (assemble_effect packFirstWord input w) as Heff. cbv zeta in Heff.
  rewrite Hcall in Heff. cbn [fst snd] in Heff.
  destruct Heff as (_ & _ & _ & _ & Hlabels & Hrest). rewrite Hp1 in Hrest.
  destruct Hrest as (_ & Hconsole & _).
  destruct (pass1_table (preprocess input) zero ∅ a Hp1) as [Hdom Hcount].
  eexists _, _, _. cbn [labels debug].
  split; [exact Hlabels|]. split; [|split; [exact Hconsole|]].
  - intros name. rewrite Hdom, lookup_empty, list_elem_of_In.
    split; [|tauto]. intros [[v Hv]|H]; [discriminate|exact H].
  - split; [apply pass1_warns|]. split; [apply pass2_debugs|].
    rewrite Hcount, map_size_empty. reflexivity.
Qed.

Lemma label_table_witness :
  exists (w' : World) (out : Assembled) table warnings debugs,
    heap w' !! labels (debug out) = Some (MapObject table)
    /\ (forall name,
           is_Some (table !! name)
           <-> labelLine name
               ∈ preprocess (".a" +:+ String newline (".a" +:+ String newline "nop")))
    /\ console w' = console {| heap := ∅; console := [] |} ++ warnings ++ debugs
    /\ forallb isWarning warnings = true
    /\ forallb (fun entry => negb (isWarning entry)) debugs = true
    /\ (length warnings + size table
        = length (labelLines
                    (preprocess (".a" +:+ String newline
                                   (".a" +:+ String newline "nop")))))%nat.
Proof.
  destruct (assemble (fun opcode _ _ _ => opcode)
              (".a" +:+ String newline (".a" +:+ String newline "nop"))
              {| heap := ∅; console := [] |}) as [w' [out|e]] eqn:Hrun.
  - exists w', out. exact (label_table _ _ _ _ _ Hrun).
  - exfalso. apply (f_equal snd) in Hrun. vm_compute in Hrun. discriminate Hrun.
Defined.

Lemma pass1_only_labels lines : forall address t,
  labelLines lines = lines ->
  (foldSteps step1 lines address t).1.1 = Ok address
  /\ forall name v,
       (foldSteps step1 lines address t).1.2 !! name = Some v ->
       v = address \/ t !! name = Some v.
Proof.
  induction lines as [|line rest IH]; intros address t Hall.
  - cbn. split; [reflexivity|]. intros name v H. now right.
  - unfold labelLines in Hall. cbn [List.filter] in Hall.
    destruct (isInstruction line) eqn:Hi; cbn [negb] in Hall.
    + exfalso. pose proof (List.filter_length_le
        (fun line => negb (isInstruction line)) rest) as Hle.
      rewrite Hall in Hle. cbn in Hle. lia.
    + injection Hall as Hall. fold (labelLines rest) in Hall.
      cbn [foldSteps].
      assert (Hstep : step1 line address t
                = (Ok address, <[substr1 line := address]> t,
                   if bool_decide (is_Some (t !! substr1 line))
                   then [console_warn ["label redeclared:"; substr1 line]]
                   else [])) by (unfold step1; now rewrite Hi).
      rewrite Hstep.
      specialize (IH address (<[substr1 line := address]> t) Hall).
      destruct (foldSteps step1 rest address (<[substr1 line := address]> t))
        as [[r t2] e2]. cbn [fst snd] in *. destruct IH as [Hr Hvals].
      split; [exact Hr|]. intros name v Hv.
      destruct (Hvals name v Hv) as [H|H]; [now left|].
      destruct (decide (substr1 line = name)) as [Heq|Hne].
      * rewrite <- Heq, lookup_insert_eq in H. left. congruence.
      * rewrite lookup_insert_ne in H by exact Hne. now right.
Qed.

Lemma pass2_only_labels packFirstWord table lines : forall state m,
  labelLines lines = lines ->
  foldSteps (step2 packFirstWord table) lines state m = (Ok state, m, []).
Proof.
  induction lines as [|line rest IH]; intros state m Hall; [reflexivity|].
  unfold labelLines in Hall. cbn [List.filter] in Hall.
  destruct (isInstruction line) eqn:Hi; cbn [negb] in Hall.
  - exfalso. pose proof (List.filter_length_le
      (fun line => negb (isInstruction line)) rest) as Hle.
    rewrite Hall in Hle. cbn in Hle. lia.
  - injection Hall as Hall. fold (labelLines rest) in Hall.
    cbn [foldSteps].
    assert (Hstep : step2 packFirstWord table line state m = (Ok state, m, []))
      by (unfold step2; now rewrite Hi).
    rewrite Hstep. now rewrite (IH state m Hall).
Qed.

(** X20: a program without an instruction line, the empty program among
    them, always assembles: the cartridge is a memory of zeros, the
    debug information has no instruction, every label is bound to
    address zero, and the console receives warnings only. *)
Theorem program_of_labels packFirstWord input w :
  labelLines (preprocess input) = preprocess input ->
  exists w' out table warnings,
    assemble packFirstWord input w = (w', Ok out)
    /\ heap w' !! mem out = Some (MemoryObject (Memory.new None))
    /\ instructions (debug out) = ∅
    /\ heap w' !! labels (debug out) = Some (MapObject table)
    /\ (forall name address, table !! name = Some address -> address = zero)
    /\ console w' = console w ++ warnings
    /\ forallb isWarning warnings = true.
Proof.
  intros Hall.
  pose proof (assemble_effect packFirstWord input w) as Heff. cbv zeta in Heff.
  destruct Heff as (_ & _ & _ & _ & Hlabels & Hrest).
  destruct (pass1_only_labels (preprocess input) zero ∅ Hall) as [Hp1 Hvals].
  rewrite Hp1 in Hrest. rewrite pass2_only_labels in Hrest by exact Hall.
  cbn [fst snd] in Hrest. destruct Hrest as (Hcart & Hconsole & Hres).
  rewrite app_nil_r in Hconsole.
  destruct (assemble packFirstWord input w) as [w' r]. cbn [fst snd] in *.
  subst r. eexists w', _, _, _. split; [reflexivity|]. cbn [mem debug labels instructions].
  split; [exact Hcart|]. split; [reflexivity|]. split; [exact Hlabels|].
  split; [|split; [exact Hconsole|apply pass1_warns]].
  intros name address Hv. destruct (Hvals name address Hv) as [H|H]; [exact H|].
  rewrite lookup_empty in H. discriminate H.
Qed.

Lemma program_of_labels_witness :
  exists w' out table warnings,
    assemble (fun opcode _ _ _ => opcode)
             (".start" +:+ String newline "; nothing yet")
             {| heap := ∅; console := [] |} = (w', Ok out)
    /\ heap w' !! mem out = Some (MemoryObject (Memory.new None))
    /\ instructions (debug out) = ∅
    /\ heap w' !! labels (debug out) = Some (MapObject table)
    /\ (forall name address, table !! name = Some address -> address = zero)
    /\ console w' = console {| heap := ∅; console := [] |} ++ warnings
    /\ forallb isWarning warnings = true.
Proof.
  apply (program_of_labels (fun opcode _ _ _ => opcode)
           (".start" +:+ String newline "; nothing yet")
           {| heap := ∅; console := [] |}).
  vm_compute. reflexivity.
Defined.

End AssemblerMore.
